(** * MediaDL: the YouTube downloader service

  A shallow embedding of [YoutubeDownloaderService] and the properties of
  its format selector, metadata fetch and file-name cleaning.

  The repository holds the service in two shapes:
  - the direct-link service (module [Direct]), whose selector matches the
    requested quality against the formats' quality labels and reads the
    pixel height from [resolution];
  - the ytdl/third-party service (module [Ytdl]; the two copies of it share
    [selectBestFormat] and [sanitizeFilename] word for word), whose selector
    maps the requested quality to a target height and reads [height].

  JavaScript values are modelled as the code sees them: strings are
  sequences of UTF-16 code units, numbers are the values [parseInt] can
  produce (integers that fit a double, the two infinities and NaN), [null]
  and [undefined] are [None]. *)

From Stdlib Require Import List ZArith NArith Bool String Ascii Lia.
Import ListNotations.

Set Implicit Arguments.

(* ------------------------------------------------------------------ *)
(** ** JavaScript strings *)

Module JsString.

(** A string is its sequence of UTF-16 code units. *)
Definition t := list N.

(** The code units of an ASCII literal. *)
Definition lit (s : string) : t := map N_of_ascii (list_ascii_of_string s).

(** [a === b] on strings. *)
Fixpoint eqb (a b : t) : bool :=
  match a, b with
  | [], [] => true
  | x :: a', y :: b' => N.eqb x y && eqb a' b'
  | _, _ => false
  end.

(** Truthiness of a string: only the empty string is falsy. *)
Definition truthy (s : t) : bool :=
  match s with [] => false | _ :: _ => true end.

(** WhiteSpace and LineTerminator code units: what [trim], [\s] and the
    leading-blank skipping of [parseInt] all use. *)
Definition is_white_space (c : N) : bool :=
  ((9 <=? c) && (c <=? 13)               (* TAB LF VT FF CR *)
   || (c =? 32) || (c =? 160)            (* SP, NBSP *)
   || (c =? 5760)                        (* U+1680 *)
   || ((8192 <=? c) && (c <=? 8202))     (* U+2000 .. U+200A *)
   || (c =? 8232) || (c =? 8233)         (* LS, PS *)
   || (c =? 8239) || (c =? 8287)         (* U+202F, U+205F *)
   || (c =? 12288) || (c =? 65279))%N.   (* U+3000, BOM *)

Fixpoint trimStart (s : t) : t :=
  match s with
  | [] => []
  | c :: r => if is_white_space c then trimStart r else s
  end.

Definition trimEnd (s : t) : t := rev (trimStart (rev s)).

(** [s.trim()] *)
Definition trim (s : t) : t := trimEnd (trimStart s).

(** [s.substring(0, n)] *)
Definition substring0 (n : nat) (s : t) : t := firstn n s.

Fixpoint startsWith (p s : t) : bool :=
  match p, s with
  | [], _ => true
  | x :: p', y :: s' => N.eqb x y && startsWith p' s'
  | _ :: _, [] => false
  end.

(** [s.includes(p)]: [p] occurs in [s] as a contiguous run. *)
Fixpoint includes (s p : t) : bool :=
  startsWith p s ||
  match s with
  | [] => false
  | _ :: s' => includes s' p
  end.

(** [x || fallback] on strings. *)
Definition or_default (x fallback : t) : t :=
  if truthy x then x else fallback.

End JsString.

Abbreviation jsstring := JsString.t.
Notation "'js' s" := (JsString.lit s) (at level 9, s at level 0, only parsing).

(* ------------------------------------------------------------------ *)
(** ** JavaScript numbers, as far as [parseInt] produces them *)

Module JsNumber.

(** [Fin z] is the integer [z] (always one a double holds exactly; the two
    zeros are not told apart, no operation here distinguishes them),
    [Inf b] is -Infinity when [b] holds and +Infinity otherwise. *)
Inductive t := NaN | Fin (z : Z) | Inf (negative : bool).

(** Round a natural number to 53 significant bits, to nearest, ties to
    even. *)
Definition round53 (n : Z) : Z :=
  let k := (Z.log2 n - 52)%Z in
  if (k <=? 0)%Z then n
  else
    let q := Z.shiftr n k in
    let r := (n - Z.shiftl q k)%Z in
    let h := Z.shiftl 1 (k - 1) in
    let q' := if (h <? r)%Z || ((r =? h)%Z && Z.odd q) then (q + 1)%Z else q in
    Z.shiftl q' k.

(** The Number value of a mathematical integer. *)
Definition of_Z (m : Z) : t :=
  let a := round53 (Z.abs m) in
  if (Z.shiftl 1 1024 <=? a)%Z then Inf (m <? 0)%Z
  else Fin (Z.sgn m * a).

(** [a < b]; false as soon as one side is NaN. *)
Definition ltb (a b : t) : bool :=
  match a, b with
  | NaN, _ | _, NaN => false
  | Fin x, Fin y => (x <? y)%Z
  | Fin _, Inf nb => negb nb
  | Inf na, Fin _ => na
  | Inf na, Inf nb => na && negb nb
  end.

Definition is_nan (a : t) : bool :=
  match a with NaN => true | _ => false end.

(** [a > b] *)
Definition gtb (a b : t) : bool := ltb b a.

(** [a <= b]: neither side NaN and not [b < a]. *)
Definition leb (a b : t) : bool :=
  negb (is_nan a) && negb (is_nan b) && negb (ltb b a).

(** Truthiness of a number: NaN and zero are falsy. *)
Definition truthy (a : t) : bool :=
  match a with
  | NaN => false
  | Fin z => negb (z =? 0)%Z
  | Inf _ => true
  end.

(** [a || 0] *)
Definition or_zero (a : t) : t := if truthy a then a else Fin 0.

End JsNumber.

Abbreviation number := JsNumber.t.

(* ------------------------------------------------------------------ *)
(** ** [parseInt(string)] with no radix argument *)

Module ParseInt.
Import JsString JsNumber.

(** The value of code unit [c] as a digit: 0-9, then a-z and A-Z from 10. *)
Definition digit (c : N) : option Z :=
  if ((48 <=? c) && (c <=? 57))%N then Some (Z.of_N c - 48)%Z
  else if ((97 <=? c) && (c <=? 122))%N then Some (Z.of_N c - 87)%Z
  else if ((65 <=? c) && (c <=? 90))%N then Some (Z.of_N c - 55)%Z
  else None.

(** [c] is a digit of radix [R]. *)
Definition is_digit (R : Z) (c : N) : bool :=
  match digit c with
  | Some d => (d <? R)%Z
  | None => false
  end.

(** The digit values of the longest prefix of radix-[R] digits. *)
Fixpoint digits (R : Z) (s : jsstring) : list Z :=
  match s with
  | [] => []
  | c :: r =>
      match digit c with
      | Some d => if (d <? R)%Z then d :: digits R r else []
      | None => []
      end
  end.

(** The integer a digit sequence denotes in radix [R]. *)
Definition mathInt (R : Z) (ds : list Z) : Z :=
  fold_left (fun acc d => (acc * R + d)%Z) ds 0%Z.

Definition sign_of (s : jsstring) : Z :=
  match s with
  | c :: _ => if (c =? 45)%N then (-1)%Z else 1%Z
  | [] => 1%Z
  end.

Definition drop_sign (s : jsstring) : jsstring :=
  match s with
  | c :: r => if ((c =? 43) || (c =? 45))%N then r else s
  | [] => s
  end.

(** The string starts with [0x] or [0X]. *)
Definition hex_prefixed (s : jsstring) : bool :=
  match s with
  | c0 :: c1 :: _ => ((c0 =? 48) && ((c1 =? 120) || (c1 =? 88)))%N
  | _ => false
  end.

(** A leading [0x] or [0X] is removed and switches to radix 16. *)
Definition strip_prefix (s : jsstring) : Z * jsstring :=
  if hex_prefixed s then (16%Z, skipn 2 s) else (10%Z, s).

(** Leading blanks are skipped, an optional sign is read, then the longest
    run of digits; no digit at all gives NaN.  (Where the language lets an
    engine drop decimal digits past the twentieth, the exact digits are
    used.) *)
Definition parseInt (input : jsstring) : number :=
  let s := trimStart input in
  let sign := sign_of s in
  let s := drop_sign s in
  let '(R, s) := strip_prefix s in
  match digits R s with
  | [] => NaN
  | ds => of_Z (sign * mathInt R ds)
  end.

(** [parseInt(v)] for an optional string property: a missing value is
    first turned into the string [undefined]. *)
Definition parseInt_opt (v : option jsstring) : number :=
  parseInt (match v with Some s => s | None => js "undefined" end).

End ParseInt.

(* ------------------------------------------------------------------ *)
(** ** The data model *)

(** [mediaType: 'video' | 'audio'] *)
Inductive mediaType := video | audio.

(** One entry of [YoutubeMetadata.formats].  The last three properties are
    optional and only declared by the ytdl service.  A height that arrives as
    a number is held as its decimal text, which is what [parseInt] reads. *)
Record Format := {
  quality : jsstring;
  container : jsstring;
  hasVideo : bool;
  hasAudio : bool;
  resolution : jsstring;
  bitrate : jsstring;
  contentLength : option Z;
  url : option jsstring;
  height : option jsstring
}.

(** [arr.reduce(f)] on an array whose first element is [first]: the
    accumulator starts at [first] and [f] is applied to the other elements
    from left to right. *)
Definition reduce {A} (f : A -> A -> A) (first : A) (rest : list A) : A :=
  fold_left f rest first.

(** The code units of the selector's [=== 'mp4'] test. *)
Definition mp4 : jsstring := js "mp4".

(* ------------------------------------------------------------------ *)
(** ** The two [replace] calls of [sanitizeFilename] *)

Module Filename.
Import JsString.

(** The character class of the first [replace]: the code units of
    less-than, greater-than, colon, double quote, slash, backslash, bar,
    question mark and asterisk. *)
Definition is_invalid (c : N) : bool :=
  ((c =? 60) || (c =? 62) || (c =? 58) || (c =? 34) || (c =? 47)
   || (c =? 92) || (c =? 124) || (c =? 63) || (c =? 42))%N.

(** The first [replace]: each such code unit becomes an underscore. *)
Definition replaceInvalid (s : jsstring) : jsstring :=
  map (fun c => if is_invalid c then 95%N else c) s.

(** [s.replace(/\s+/g, ' ')]: every maximal run of blanks becomes one space.
    [inRun] tells that the previous code unit was a blank. *)
Fixpoint collapseBlanks (inRun : bool) (s : jsstring) : jsstring :=
  match s with
  | [] => []
  | c :: r =>
      if is_white_space c
      then (if inRun then collapseBlanks true r else 32%N :: collapseBlanks true r)
      else c :: collapseBlanks false r
  end.

End Filename.

(* ------------------------------------------------------------------ *)
(** ** The direct-link service *)

Module Direct.
Import JsString JsNumber ParseInt.

Section Selector.

(** [String.prototype.toLowerCase], the Unicode lower-casing of the host. *)
Variable toLowerCase : jsstring -> jsstring.

(** The callback of [formats.filter]. *)
Definition keeps (mediaType : mediaType) (format : Format) : bool :=
  match mediaType with
  | audio => hasAudio format && negb (hasVideo format)
  | video => hasVideo format && hasAudio format && eqb (container format) mp4
  end.

(** [parseInt(f.resolution) || 0] *)
Definition parsedHeight (f : Format) : number :=
  or_zero (parseInt (resolution f)).

(** The callback of [filteredFormats.find]. *)
Definition labelMatches (wanted : jsstring) (f : Format) : bool :=
  includes (toLowerCase (quality f)) (toLowerCase wanted).

(** The [if (quality) { ... }] block: [Some f] when it returns [f], [None]
    when control reaches the statement after it. *)
Definition qualityStage (wanted : option jsstring) (filteredFormats : list Format)
  : option Format :=
  match wanted with
  | Some q =>
      if JsString.truthy q then find (labelMatches q) filteredFormats
      else None
  | None => None
  end.

(** The callback of [filteredFormats.reduce]. *)
Definition pick (best current : Format) : Format :=
  let currentHeight := parsedHeight current in
  let bestHeight := parsedHeight best in
  if gtb bestHeight currentHeight then best else current.

(** The final [return filteredFormats.reduce(...)]. *)
Definition defaultStage (first : Format) (rest : list Format) : Format :=
  reduce pick first rest.

(** [selectBestFormat(formats, mediaType, quality)]; the [quality] argument is
    [wanted] here, [None] when it is left out, and the result [None] is
    [null]. *)
Definition selectBestFormat (formats : list Format) (mediaType : mediaType)
    (wanted : option jsstring) : option Format :=
  let filteredFormats := filter (keeps mediaType) formats in
  match filteredFormats with
  | [] => None
  | first :: rest =>
      match qualityStage wanted filteredFormats with
      | Some formatByQuality => Some formatByQuality
      | None => Some (defaultStage first rest)
      end
  end.

End Selector.

(** [sanitizeFilename(title)] *)
Definition sanitizeFilename (title : jsstring) : jsstring :=
  or_default
    (trim (substring0 80 (Filename.replaceInvalid title)))
    (js "video").

End Direct.

(* ------------------------------------------------------------------ *)
(** ** The ytdl / third-party service *)

Module Ytdl.
Import JsString JsNumber ParseInt.

(** What reading a property of [qualityMap] can give: one of its numbers, or
    a member it inherits from [Object.prototype] (a function, or the
    prototype object itself under [__proto__]). *)
Inductive value := Number (n : number) | Inherited.

(** The own properties of the [qualityMap] literal. *)
Definition qualityMap : list (jsstring * Z) :=
  [ (js "4320p", 4320%Z); (js "2160p", 2160%Z); (js "1440p", 1440%Z);
    (js "1080p", 1080%Z); (js "720p", 720%Z); (js "480p", 480%Z);
    (js "360p", 360%Z); (js "240p", 240%Z) ].

(** The property names every plain object inherits. *)
Definition objectPrototype : list jsstring :=
  [ js "constructor"; js "__defineGetter__"; js "__defineSetter__";
    js "hasOwnProperty"; js "__lookupGetter__"; js "__lookupSetter__";
    js "isPrototypeOf"; js "propertyIsEnumerable"; js "toString";
    js "valueOf"; js "__proto__"; js "toLocaleString" ].

Fixpoint own (m : list (jsstring * Z)) (key : jsstring) : option Z :=
  match m with
  | [] => None
  | (k, v) :: m' => if eqb k key then Some v else own m' key
  end.

Definition inherited (key : jsstring) : bool :=
  existsb (eqb key) objectPrototype.

(** [qualityMap[key]]: own properties first, then the prototype; [None] is
    [undefined]. *)
Definition lookup (key : jsstring) : option value :=
  match own qualityMap key with
  | Some v => Some (Number (Fin v))
  | None => if inherited key then Some Inherited else None
  end.

Definition value_truthy (v : option value) : bool :=
  match v with
  | Some (Number n) => JsNumber.truthy n
  | Some Inherited => true
  | None => false
  end.

(** [qualityMap[quality] || 1080] *)
Definition targetHeight (wanted : jsstring) : value :=
  match lookup wanted with
  | Some v => if value_truthy (Some v) then v else Number (Fin 1080)
  | None => Number (Fin 1080)
  end.

(** The number a value is compared as.  The inherited members turn into
    text (the source of a native function, or [[object Object]]), which is
    no numeric literal, so the comparison sees NaN. *)
Definition toNumber (v : value) : number :=
  match v with
  | Number n => n
  | Inherited => NaN
  end.

(** The callback of [formats.filter]. *)
Definition keeps (mediaType : mediaType) (format : Format) : bool :=
  match mediaType with
  | audio => hasAudio format && negb (hasVideo format) && eqb (container format) mp4
  | video => hasVideo format && hasAudio format && eqb (container format) mp4
  end.

(** [parseInt(f.height) || 0] *)
Definition parsedHeight (f : Format) : number :=
  or_zero (parseInt_opt (height f)).

(** The callback of [filteredFormats.find]. *)
Definition fits (targetHeight : value) (f : Format) : bool :=
  let height := parsedHeight f in
  leb height (toNumber targetHeight).

(** The [if (quality) { ... }] block: [Some f] when it returns [f], [None]
    when control reaches the statement after it. *)
Definition qualityStage (wanted : option jsstring) (filteredFormats : list Format)
  : option Format :=
  match wanted with
  | Some q =>
      if JsString.truthy q then find (fits (targetHeight q)) filteredFormats
      else None
  | None => None
  end.

(** The callback of [filteredFormats.reduce]. *)
Definition pick (best current : Format) : Format :=
  let currentHeight := parsedHeight current in
  let bestHeight := parsedHeight best in
  if gtb currentHeight bestHeight then current else best.

(** The final [return filteredFormats.reduce(...)]. *)
Definition defaultStage (first : Format) (rest : list Format) : Format :=
  reduce pick first rest.

(** [selectBestFormat(formats, mediaType, quality)]; the [quality] argument is
    [wanted] here, [None] when it is left out, and the result [None] is
    [null]. *)
Definition selectBestFormat (formats : list Format) (mediaType : mediaType)
    (wanted : option jsstring) : option Format :=
  let filteredFormats := filter (keeps mediaType) formats in
  match filteredFormats with
  | [] => None
  | first :: rest =>
      match qualityStage wanted filteredFormats with
      | Some bestMatch => Some bestMatch
      | None => Some (defaultStage first rest)
      end
  end.

(** [sanitizeFilename(filename)] *)
Definition sanitizeFilename (filename : jsstring) : jsstring :=
  or_default
    (trim (substring0 80
             (Filename.collapseBlanks false (Filename.replaceInvalid filename))))
    (js "youtube-video").

End Ytdl.

(* ------------------------------------------------------------------ *)
(** ** [getVideoMetadata], the same in every copy of the service *)

Module Metadata.
Import JsString.

Section Fetch.

(** The metadata object the backend sends; the service never looks inside. *)
Variable YoutubeMetadata : Type.

(** What [api.getYoutubeMetadata(url)] resolves to, when it is an object. *)
Record ApiResponse := {
  success : bool;
  data : option YoutubeMetadata
}.

(** How the awaited call settles: with a response (possibly none at all), or
    with a rejection whose [message], if it has one, is kept. *)
Inductive settled :=
| Resolved (response : option ApiResponse)
| Rejected (message : option jsstring).

(** How [getVideoMetadata] completes. *)
Inductive completion :=
| Returns (metadata : YoutubeMetadata)
| Throws (message : jsstring).

Definition retrievalError : jsstring :=
  js "Erreur lors de la r" ++ [233%N] ++ js "cup" ++ [233%N]
  ++ js "ration des m" ++ [233%N] ++ js "tadonn" ++ [233%N] ++ js "es".

Definition noDataError : jsstring :=
  js "Aucune donn" ++ [233%N] ++ js "e trouv" ++ [233%N]
  ++ js "e pour cette vid" ++ [233%N] ++ js "o".

(** The [try] block: the value it returns, or the [message] of what it
    throws. *)
Definition attempt (call : settled) : YoutubeMetadata + option jsstring :=
  match call with
  | Rejected message => inr message
  | Resolved None => inr (Some retrievalError)
  | Resolved (Some response) =>
      if negb (success response) then inr (Some retrievalError)
      else
        match data response with
        | None => inr (Some noDataError)
        | Some d => inl d
        end
  end.

(** The [catch] clause: [new Error(error?.message || '...')]. *)
Definition rethrow (message : option jsstring) : jsstring :=
  match message with
  | Some m => if truthy m then m else retrievalError
  | None => retrievalError
  end.

Definition getVideoMetadata (call : settled) : completion :=
  match attempt call with
  | inl d => Returns d
  | inr message => Throws (rethrow message)
  end.

End Fetch.

End Metadata.

(* ------------------------------------------------------------------ *)
(** ** Video links of the ytdl / third-party service *)

Module VideoUrl.
Import JsString.

(** The three alternatives of the regular expression of [extractVideoId],
    in the order it tries them. *)
Definition markers : list jsstring :=
  [ js "youtube.com/watch?v="; js "youtu.be/"; js "youtube.com/embed/" ].

(** The class of the captured group: any code unit but ampersand, line
    feed, question mark and hash. *)
Definition in_id (c : N) : bool :=
  negb ((c =? 38) || (c =? 10) || (c =? 63) || (c =? 35))%N.

(** The longest run of such code units at the start of [s]. *)
Fixpoint idRun (s : jsstring) : jsstring :=
  match s with
  | [] => []
  | c :: r => if in_id c then c :: idRun r else []
  end.

(** One alternative at the start of [s]: the marker, then at least one code
    unit of the class, as many as there are. *)
Definition tryMarker (m s : jsstring) : option jsstring :=
  if startsWith m s then
    match idRun (skipn (List.length m) s) with
    | [] => None
    | id => Some id
    end
  else None.

Fixpoint firstAlternative (ms : list jsstring) (s : jsstring) : option jsstring :=
  match ms with
  | [] => None
  | m :: ms' =>
      match tryMarker m s with
      | Some id => Some id
      | None => firstAlternative ms' s
      end
  end.

(** [url.match(regex)]: the leftmost position where an alternative matches;
    the result is the captured group. *)
Fixpoint matchFrom (s : jsstring) : option jsstring :=
  match firstAlternative markers s with
  | Some id => Some id
  | None =>
      match s with
      | [] => None
      | _ :: r => matchFrom r
      end
  end.

(** [extractVideoId(url)]; [None] is [null]. *)
Definition extractVideoId (url : jsstring) : option jsstring := matchFrom url.

(** [isYoutubeUrl(url)] *)
Definition isYoutubeUrl (url : jsstring) : bool :=
  includes url (js "youtube.com") || includes url (js "youtu.be").






End VideoUrl.

(* ------------------------------------------------------------------ *)
(** ** [downloadVideo] of the direct-link service *)

Module DirectDownload.
Import JsString.

(** The metadata object; the service reads [title] and [formats] only. *)
Record YoutubeMetadata := {
  title : jsstring;
  duration : number;
  thumbnail : jsstring;
  author : jsstring;
  viewCount : number;
  publishDate : jsstring;
  description : jsstring;
  formats : list Format
}.

(** How the promise of [downloadVideo] settles: resolved after the link,
    with the given values assigned to [href] and [download], was clicked, or
    rejected with an error of the given message.  The calls on the document
    are taken to succeed. *)
Inductive outcome :=
| Clicked (href download : jsstring)
| Rejected (message : jsstring).

Definition noFormatError : jsstring :=
  js "Aucun format disponible pour ce type de m" ++ [233%N] ++ js "dia".

(** [buildDownloadUrl(url, format)] *)
Definition buildDownloadUrl (url : jsstring) (format : Format) : jsstring := url.

Section Download.

Variable toLowerCase : jsstring -> jsstring.

(** [downloadVideo(url, filename, mediaType, quality)], given how the call
    to the backend settles. *)
Definition downloadVideo (url filename : jsstring) (mediaType : mediaType)
    (wanted : option jsstring) (call : Metadata.settled YoutubeMetadata)
  : outcome :=
  match Metadata.getVideoMetadata call with
  | Metadata.Throws _ message => Rejected message
  | Metadata.Returns metadata =>
      match Direct.selectBestFormat toLowerCase (formats metadata)
              mediaType wanted with
      | None => Rejected noFormatError
      | Some selectedFormat =>
          let downloadUrl := buildDownloadUrl url selectedFormat in
          Clicked downloadUrl
            (or_default filename (Direct.sanitizeFilename (title metadata)))
      end
  end.

End Download.

End DirectDownload.

(* ------------------------------------------------------------------ *)
(** ** The script that writes the environment file *)

Module EnvFile.
Import JsString.

(** Add a code unit in front of the first line. *)
Definition push (c : N) (lines : list jsstring) : list jsstring :=
  match lines with
  | l :: t => (c :: l) :: t
  | [] => [[c]]
  end.

(** [raw.split(/\r?\n/)]: a line feed, alone or right after a carriage
    return, ends a line. *)
Fixpoint splitLines (raw : jsstring) : list jsstring :=
  match raw with
  | [] => [[]]
  | c :: r =>
      if (c =? 10)%N then [] :: splitLines r
      else
        match r with
        | c' :: r' =>
            if ((c =? 13) && (c' =? 10))%N then [] :: splitLines r'
            else push c (splitLines r)
        | [] => push c (splitLines r)
        end
  end.

(** [s.indexOf(c)]; [None] is -1. *)
Fixpoint indexOf (c : N) (s : jsstring) : option nat :=
  match s with
  | [] => None
  | x :: r =>
      if (x =? c)%N then Some O
      else match indexOf c r with
           | Some i => Some (S i)
           | None => None
           end
  end.

(** The own properties of the [result] object, one pair per key. *)
Definition object := list (jsstring * jsstring).

Definition proto : jsstring := js "__proto__".

(** [obj[key] = value] for a string [value]: the key gets the value, except
    [__proto__], whose inherited setter ignores a string. *)
Definition set (key value : jsstring) (obj : object) : object :=
  if eqb key proto then obj
  else (key, value) :: filter (fun p => negb (eqb (fst p) key)) obj.

(** [obj[key]] for a key that is no member of [Object.prototype]; [None]
    is [undefined]. *)
Fixpoint get (key : jsstring) (obj : object) : option jsstring :=
  match obj with
  | [] => None
  | (k, v) :: obj' => if eqb k key then Some v else get key obj'
  end.

(** The callback of [forEach]. *)
Definition readLine (result : object) (line : jsstring) : object :=
  let trimmed := trim line in
  if negb (truthy trimmed) || startsWith (js "#") trimmed then result
  else
    match indexOf 61 trimmed with
    | None => result
    | Some idx =>
        let key := trim (firstn idx trimmed) in
        let value := trim (skipn (idx + 1) trimmed) in
        set key value result
    end.

(** [parseEnv(raw)] *)
Definition parseEnv (raw : jsstring) : object :=
  fold_left readLine (splitLines raw) [].

Definition API_BASE_URL : jsstring := js "API_BASE_URL".

Definition defaultBaseUrl : jsstring := js "https://dryapi.onrender.com".

(** The value of [apiBaseUrl] when the file is written, from
    [process.env.API_BASE_URL] and the text of [.env], each [None] when
    absent. *)
Definition apiBaseUrl (processEnv envFile : option jsstring) : jsstring :=
  let fromProcess := match processEnv with Some v => v | None => [] end in
  let apiBaseUrl := or_default fromProcess defaultBaseUrl in
  if negb (truthy fromProcess) then
    match envFile with
    | Some raw =>
        match get API_BASE_URL (parseEnv raw) with
        | Some v => if truthy v then v else apiBaseUrl
        | None => apiBaseUrl
        end
    | None => apiBaseUrl
    end
  else apiBaseUrl.

End EnvFile.

(* ------------------------------------------------------------------ *)
(** ** Sample formats *)

Module Samples.
Local Open Scope string_scope.

(** A format with the given quality label, container, tracks, resolution
    and height; the properties the selector never reads are left out. *)
Definition format (label cont : string) (v a : bool) (res : string)
    (h : option string) : Format :=
  {| quality := js label; container := js cont;
     hasVideo := v; hasAudio := a;
     resolution := js res; bitrate := [];
     contentLength := None; url := None;
     height := option_map JsString.lit h |}.

(** Muxed mp4 formats, with the height both in [resolution] and [height]. *)
Definition mp4_1440p60 := format "1440p60" "mp4" true true "1440" (Some "1440").
Definition mp4_1080p := format "1080p" "mp4" true true "1080" (Some "1080").
Definition mp4_720p := format "720p" "mp4" true true "720" (Some "720").
Definition mp4_720p_hdr := format "720p HDR" "mp4" true true "720" (Some "720").
Definition mp4_480p := format "480p" "mp4" true true "480" (Some "480").

(** A muxed mp4 format whose height is missing altogether. *)
Definition mp4_unknown := format "unknown" "mp4" true true "" None.

(** A webm video, and audio-only tracks in two containers. *)
Definition webm_2160p := format "2160p" "webm" true true "2160" (Some "2160").
Definition audio_m4a := format "tiny" "mp4" false true "" None.
Definition audio_webm := format "tiny" "webm" false true "" None.

(** The identity, standing for lower-casing where no upper-case letter
    occurs. *)
Definition lowercase_already (s : jsstring) : jsstring := s.

End Samples.

(* ------------------------------------------------------------------ *)
(** ** Vocabulary of the properties *)

Module Props.
Import JsNumber.

(** [d] is the first element of [l], in the order of [l], that [p] accepts. *)
Definition first_accepted {A} (p : A -> bool) (l : list A) (d : A) : Prop :=
  exists before after,
    l = before ++ d :: after /\ p d = true /\
    forall x, In x before -> p x = false.

(** [r] is the leftmost element of [l] of greatest height: everything before
    it is strictly lower, nothing after it is higher. *)
Definition leftmost_max {A} (h : A -> number) (l : list A) (r : A) : Prop :=
  exists before after,
    l = before ++ r :: after /\
    (forall x, In x before -> ltb (h x) (h r) = true) /\
    (forall x, In x after -> leb (h x) (h r) = true).

(** [r] is the rightmost element of [l] of greatest height. *)
Definition rightmost_max {A} (h : A -> number) (l : list A) (r : A) : Prop :=
  exists before after,
    l = before ++ r :: after /\
    (forall x, In x before -> leb (h x) (h r) = true) /\
    (forall x, In x after -> ltb (h x) (h r) = true).

(** The target height as the specification words it: the eight known labels,
    and 1080 for every other label. *)
Definition spec_target (label : jsstring) : Z :=
  if JsString.eqb label (js "4320p") then 4320
  else if JsString.eqb label (js "2160p") then 2160
  else if JsString.eqb label (js "1440p") then 1440
  else if JsString.eqb label (js "1080p") then 1080
  else if JsString.eqb label (js "720p") then 720
  else if JsString.eqb label (js "480p") then 480
  else if JsString.eqb label (js "360p") then 360
  else if JsString.eqb label (js "240p") then 240
  else 1080.

(** The integer a sequence of digit values denotes in radix [R], position by
    position: the first digit weighs most. *)
Fixpoint positional (R : Z) (vs : list Z) : Z :=
  match vs with
  | [] => 0%Z
  | v :: r => (v * R ^ Z.of_nat (List.length r) + positional R r)%Z
  end.

(** The values of a run of digits. *)
Definition values (run : jsstring) : list Z :=
  map (fun c => match ParseInt.digit c with Some d => d | None => 0%Z end) run.

(** The text starts with a digit of radix [R]. *)
Definition digit_next (R : Z) (s : jsstring) : bool :=
  match s with
  | c :: _ => ParseInt.is_digit R c
  | [] => false
  end.

(** The text is numeric: after leading blanks and an optional sign it starts
    with a decimal digit. *)
Definition numeric (s : jsstring) : bool :=
  digit_next 10 (ParseInt.drop_sign (JsString.trimStart s)).

(** An optional sign: nothing, plus or minus. *)
Definition is_sign (sg : jsstring) : Prop :=
  sg = [] \/ sg = [43%N] \/ sg = [45%N].

(** The provider gave nothing usable: the call failed, or there is no
    response, or the response is marked unsuccessful, or it carries no
    data. *)
Definition unusable {T} (call : Metadata.settled T) : Prop :=
  match call with
  | Metadata.Rejected _ _ => True
  | Metadata.Resolved None => True
  | Metadata.Resolved (Some response) =>
      Metadata.success response = false \/ Metadata.data response = None
  end.

(** File-name cleaning in three steps and a default: replace the invalid
    characters, cut to 80 code units, trim, and fall back on [fallback] when
    nothing is left. *)
Definition cleaned_in_three_steps (fallback s : jsstring) : jsstring :=
  JsString.or_default
    (JsString.trim (firstn 80 (Filename.replaceInvalid s))) fallback.

(** The code unit is none of the invalid characters. *)
Definition valid (c : N) : Prop := Filename.is_invalid c = false.

(** No blank at either end. *)
Definition trimmed (s : jsstring) : Prop :=
  JsString.trimStart s = s /\ JsString.trimEnd s = s.

(** Every blank is a plain space and no two blanks are adjacent;
    [afterBlank] tells that a blank comes just before [s]. *)
Fixpoint spaced (afterBlank : bool) (s : jsstring) : Prop :=
  match s with
  | [] => True
  | c :: r =>
      if JsString.is_white_space c
      then c = 32%N /\ afterBlank = false /\ spaced true r
      else spaced false r
  end.

(** A height is positive. *)
Definition positive (n : number) : Prop := ltb (Fin 0) n = true.

(** The two shapes of reducer the services use: one replaces the accumulator
    only by a strictly higher element, the other keeps it only against a
    strictly lower one. *)
Definition keep_on_tie {A} (h : A -> number) (best current : A) : A :=
  if gtb (h current) (h best) then current else best.

Definition replace_on_tie {A} (h : A -> number) (best current : A) : A :=
  if gtb (h best) (h current) then best else current.

End Props.

(* ------------------------------------------------------------------ *)
(** ** Vocabulary for links and environment files *)

Module TextProps.

(** The run of identifier code units ends here: the text is over, or goes
    on with a code unit outside the class. *)
Definition stops (rest : jsstring) : Prop :=
  match rest with
  | [] => True
  | c :: _ => VideoUrl.in_id c = false
  end.

(** The text with every line feed turned into carriage return, line feed. *)
Definition crlf (s : jsstring) : jsstring :=
  flat_map (fun c => if (c =? 10)%N then [13%N; 10%N] else [c]) s.

(** The code unit does not occur in the text. *)
Definition without (c : N) (s : jsstring) : Prop := ~ In c s.

(** What every property read from an environment file looks like: key and
    value trimmed and free of line feeds, no equals sign in the key, and
    the key is not [__proto__]. *)
Definition entry_ok (key value : jsstring) : Prop :=
  Props.trimmed key /\ Props.trimmed value /\
  without 61 key /\ without 10 key /\ without 10 value /\
  key <> EnvFile.proto.

(** Two lines that differ at most by one carriage return at the end. *)
Definition same_but_cr (l' l : jsstring) : Prop := l' = l \/ l' = l ++ [13%N].

End TextProps.

(* ------------------------------------------------------------------ *)
(** ** Order facts on numbers that are not NaN *)

Module NumberFacts.
Import JsNumber.

Lemma or_zero_not_nan (a : number) : is_nan (or_zero a) = false.
Proof.
  unfold or_zero. destruct a as [|z|b]; cbn; try reflexivity.
  destruct (z =? 0)%Z; reflexivity.
Qed.

Ltac by_cases :=
  repeat match goal with
         | a : number |- _ => destruct a as [|?|[]]
         end;
  cbn in *; try discriminate; try reflexivity; try lia.

Lemma ltb_trans (a b c : number) :
  ltb a b = true -> ltb b c = true -> ltb a c = true.
Proof. by_cases. Qed.

Lemma leb_ltb_trans (a b c : number) :
  leb a b = true -> ltb b c = true -> ltb a c = true.
Proof. by_cases. Qed.

Lemma ltb_leb_trans (a b c : number) :
  ltb a b = true -> leb b c = true -> ltb a c = true.
Proof. by_cases. Qed.

Lemma leb_trans (a b c : number) :
  leb a b = true -> leb b c = true -> leb a c = true.
Proof. by_cases. Qed.

Lemma ltb_leb (a b : number) : ltb a b = true -> leb a b = true.
Proof. by_cases. Qed.

Lemma not_gtb_leb (a b : number) :
  is_nan a = false -> is_nan b = false -> gtb a b = false -> leb a b = true.
Proof. unfold gtb. by_cases. Qed.

Lemma leb_not_ltb (a b : number) : leb a b = true -> ltb b a = false.
Proof. by_cases. Qed.

Lemma leb_refl (a : number) : is_nan a = false -> leb a a = true.
Proof. by_cases. Qed.

Lemma leb_nan_r (a : number) : leb a NaN = false.
Proof. unfold leb. cbn. now rewrite andb_false_r. Qed.

End NumberFacts.

(* ------------------------------------------------------------------ *)
(** ** [find] and [reduce] on arrays *)

Module ArrayFacts.
Import JsNumber Props NumberFacts.

Lemma find_first_accepted {A} (p : A -> bool) (l : list A) (d : A) :
  find p l = Some d <-> first_accepted p l d.
Proof.
  unfold first_accepted. induction l as [|a l IH]; cbn.
  - split; [discriminate|]. intros (b & t & E & _). now destruct b.
  - destruct (p a) eqn:Pa.
    + split.
      * intros [= ->]. exists [], l. now repeat split.
      * intros ([|b0 b] & t & E & Pd & Hb); cbn in E; injection E as -> ->.
        -- reflexivity.
        -- rewrite (Hb b0) in Pa by now left. discriminate.
    + rewrite IH. split.
      * intros (b & t & -> & Pd & Hb). exists (a :: b), t. repeat split; trivial.
        intros x [<-|Hx]; auto.
      * intros ([|b0 b] & t & E & Pd & Hb); cbn in E; injection E as -> ->.
        -- congruence.
        -- exists b, t. repeat split; trivial. intros x Hx. apply Hb. now right.
Qed.

Lemma find_none_iff {A} (p : A -> bool) (l : list A) :
  find p l = None <-> forall x, In x l -> p x = false.
Proof.
  split.
  - intros H x Hx. exact (find_none p l H x Hx).
  - intros H. induction l as [|a l IH]; cbn; trivial.
    rewrite (H a) by now left. apply IH. intros x Hx. apply H. now right.
Qed.

Lemma first_accepted_in {A} (p : A -> bool) (l : list A) (d : A) :
  first_accepted p l d -> In d l.
Proof. intros (b & t & -> & _). apply in_elt. Qed.

Section Extremum.

Variable A : Type.
Variable h : A -> number.
Hypothesis h_not_nan : forall x, is_nan (h x) = false.

Lemma keep_on_tie_invariant (rest before after : list A) (best : A) :
  (forall x, In x before -> ltb (h x) (h best) = true) ->
  (forall x, In x after -> leb (h x) (h best) = true) ->
  leftmost_max h (before ++ best :: after ++ rest)
    (fold_left (keep_on_tie h) rest best).
Proof.
  revert before after best.
  induction rest as [|c rest IH]; intros before after best Hb Ha; cbn.
  - rewrite app_nil_r. now exists before, after.
  - unfold keep_on_tie at 2. destruct (gtb (h c) (h best)) eqn:G.
    + replace (before ++ best :: after ++ c :: rest)
        with ((before ++ best :: after) ++ c :: [] ++ rest)
        by now rewrite <- app_assoc.
      apply IH.
      * intros x Hx. apply in_app_or in Hx as [Hx|[<-|Hx]].
        -- eapply ltb_trans; [now apply Hb|exact G].
        -- exact G.
        -- eapply leb_ltb_trans; [now apply Ha|exact G].
      * intros x [].
    + replace (before ++ best :: after ++ c :: rest)
        with (before ++ best :: (after ++ [c]) ++ rest)
        by now rewrite <- app_assoc.
      apply IH; trivial.
      intros x Hx. apply in_app_or in Hx as [Hx|[<-|[]]]; auto.
      now apply not_gtb_leb.
Qed.

Lemma replace_on_tie_invariant (rest before after : list A) (best : A) :
  (forall x, In x before -> leb (h x) (h best) = true) ->
  (forall x, In x after -> ltb (h x) (h best) = true) ->
  rightmost_max h (before ++ best :: after ++ rest)
    (fold_left (replace_on_tie h) rest best).
Proof.
  revert before after best.
  induction rest as [|c rest IH]; intros before after best Hb Ha; cbn.
  - rewrite app_nil_r. now exists before, after.
  - unfold replace_on_tie at 2. destruct (gtb (h best) (h c)) eqn:G.
    + replace (before ++ best :: after ++ c :: rest)
        with (before ++ best :: (after ++ [c]) ++ rest)
        by now rewrite <- app_assoc.
      apply IH; trivial.
      intros x Hx. apply in_app_or in Hx as [Hx|[<-|[]]]; auto.
    + assert (L : leb (h best) (h c) = true) by now apply not_gtb_leb.
      replace (before ++ best :: after ++ c :: rest)
        with ((before ++ best :: after) ++ c :: [] ++ rest)
        by now rewrite <- app_assoc.
      apply IH.
      * intros x Hx. apply in_app_or in Hx as [Hx|[<-|Hx]].
        -- eapply leb_trans; [now apply Hb|exact L].
        -- exact L.
        -- apply ltb_leb. eapply ltb_leb_trans; [now apply Ha|exact L].
      * intros x [].
Qed.

Lemma reduce_keep_on_tie (first : A) (rest : list A) :
  leftmost_max h (first :: rest) (reduce (keep_on_tie h) first rest).
Proof. apply (keep_on_tie_invariant rest [] []); intros x []. Qed.

Lemma reduce_replace_on_tie (first : A) (rest : list A) :
  rightmost_max h (first :: rest) (reduce (replace_on_tie h) first rest).
Proof. apply (replace_on_tie_invariant rest [] []); intros x []. Qed.

End Extremum.

Lemma leftmost_max_in {A} (h : A -> number) l r : leftmost_max h l r -> In r l.
Proof. intros (b & t & -> & _). apply in_elt. Qed.

Lemma rightmost_max_in {A} (h : A -> number) l r : rightmost_max h l r -> In r l.
Proof. intros (b & t & -> & _). apply in_elt. Qed.

Lemma leftmost_max_greatest {A} (h : A -> number) l r :
  is_nan (h r) = false ->
  leftmost_max h l r -> forall x, In x l -> leb (h x) (h r) = true.
Proof.
  intros N (b & t & -> & Hb & Ht) x Hx.
  apply in_app_or in Hx as [Hx|[<-|Hx]]; auto using ltb_leb, leb_refl.
Qed.

Lemma rightmost_max_greatest {A} (h : A -> number) l r :
  is_nan (h r) = false ->
  rightmost_max h l r -> forall x, In x l -> leb (h x) (h r) = true.
Proof.
  intros N (b & t & -> & Hb & Ht) x Hx.
  apply in_app_or in Hx as [Hx|[<-|Hx]]; auto using ltb_leb, leb_refl.
Qed.

End ArrayFacts.

(* ------------------------------------------------------------------ *)
(** ** The two selectors *)

Module SelectorFacts.
Import JsNumber Props NumberFacts ArrayFacts.

Lemma eqb_eq (a b : jsstring) : JsString.eqb a b = true <-> a = b.
Proof.
  revert b. induction a as [|x a IH]; intros [|y b]; cbn; try easy.
  rewrite andb_true_iff, N.eqb_eq, IH. split; [intros [-> ->]|intros [= -> ->]]; auto.
Qed.

Lemma startsWith_refl (s : jsstring) : JsString.startsWith s s = true.
Proof. induction s as [|c s IH]; cbn; trivial. now rewrite N.eqb_refl. Qed.

Lemma includes_refl (s : jsstring) : JsString.includes s s = true.
Proof. destruct s; cbn; trivial. now rewrite N.eqb_refl, startsWith_refl. Qed.

Lemma ytdl_height_not_nan (f : Format) : is_nan (Ytdl.parsedHeight f) = false.
Proof. apply or_zero_not_nan. Qed.

Lemma direct_height_not_nan (f : Format) : is_nan (Direct.parsedHeight f) = false.
Proof. apply or_zero_not_nan. Qed.

(** The reducers of the two services are the two shapes of [Props]. *)
Lemma ytdl_pick_shape : Ytdl.pick = keep_on_tie Ytdl.parsedHeight.
Proof. reflexivity. Qed.

Lemma direct_pick_shape : Direct.pick = replace_on_tie Direct.parsedHeight.
Proof. reflexivity. Qed.

Lemma ytdl_default_leftmost (first : Format) (rest : list Format) :
  leftmost_max Ytdl.parsedHeight (first :: rest) (Ytdl.defaultStage first rest).
Proof.
  unfold Ytdl.defaultStage. rewrite ytdl_pick_shape.
  apply reduce_keep_on_tie, ytdl_height_not_nan.
Qed.

Lemma direct_default_rightmost (first : Format) (rest : list Format) :
  rightmost_max Direct.parsedHeight (first :: rest) (Direct.defaultStage first rest).
Proof.
  unfold Direct.defaultStage. rewrite direct_pick_shape.
  apply reduce_replace_on_tie, direct_height_not_nan.
Qed.

(** Whatever the quality stage returns comes from the filtered array. *)
Lemma ytdl_stage_in (wanted : option jsstring) (l : list Format) (d : Format) :
  Ytdl.qualityStage wanted l = Some d -> In d l.
Proof.
  unfold Ytdl.qualityStage. destruct wanted as [q|]; [|discriminate].
  destruct (JsString.truthy q); [|discriminate].
  intros H. now apply find_some in H.
Qed.

Lemma direct_stage_in lower (wanted : option jsstring) (l : list Format) (d : Format) :
  Direct.qualityStage lower wanted l = Some d -> In d l.
Proof.
  unfold Direct.qualityStage. destruct wanted as [q|]; [|discriminate].
  destruct (JsString.truthy q); [|discriminate].
  intros H. now apply find_some in H.
Qed.

(** The selector, unfolded on a filtered array that is not empty. *)
Lemma ytdl_select_cons formats mediaType wanted first rest :
  filter (Ytdl.keeps mediaType) formats = first :: rest ->
  Ytdl.selectBestFormat formats mediaType wanted =
    match Ytdl.qualityStage wanted (first :: rest) with
    | Some bestMatch => Some bestMatch
    | None => Some (Ytdl.defaultStage first rest)
    end.
Proof. unfold Ytdl.selectBestFormat. now intros ->. Qed.

Lemma direct_select_cons lower formats mediaType wanted first rest :
  filter (Direct.keeps mediaType) formats = first :: rest ->
  Direct.selectBestFormat lower formats mediaType wanted =
    match Direct.qualityStage lower wanted (first :: rest) with
    | Some formatByQuality => Some formatByQuality
    | None => Some (Direct.defaultStage first rest)
    end.
Proof. unfold Direct.selectBestFormat. now intros ->. Qed.

(** A label that is no inherited property name gets the target height of
    the specification's table. *)
Lemma own_spec_target (wanted : jsstring) :
  match Ytdl.own Ytdl.qualityMap wanted with
  | Some v => v = spec_target wanted
  | None => spec_target wanted = 1080%Z
  end.
Proof.
  unfold spec_target, Ytdl.qualityMap, Ytdl.own.
  repeat match goal with
         | |- context [JsString.eqb ?k wanted] =>
             let E := fresh "E" in
             destruct (JsString.eqb k wanted) eqn:E;
             [apply eqb_eq in E; subst wanted; reflexivity|]
         end.
  repeat match goal with
         | |- context [JsString.eqb wanted ?k] =>
             let E := fresh "E" in
             destruct (JsString.eqb wanted k) eqn:E;
             [apply eqb_eq in E; subst wanted; cbn in *; discriminate|]
         end.
  reflexivity.
Qed.

Lemma spec_target_positive (wanted : jsstring) : (0 < spec_target wanted)%Z.
Proof.
  unfold spec_target.
  repeat match goal with
         | |- context [if ?b then _ else _] => destruct b
         end; reflexivity.
Qed.

Lemma target_height_spec (wanted : jsstring) :
  Ytdl.inherited wanted = false ->
  Ytdl.targetHeight wanted = Ytdl.Number (Fin (spec_target wanted)).
Proof.
  intros NI. unfold Ytdl.targetHeight, Ytdl.lookup. rewrite NI.
  pose proof (own_spec_target wanted) as H.
  destruct (Ytdl.own Ytdl.qualityMap wanted) as [v|]; [|now rewrite H].
  subst v. cbn.
  assert (P : (spec_target wanted =? 0)%Z = false).
  { apply Z.eqb_neq. pose proof (spec_target_positive wanted). lia. }
  now rewrite P.
Qed.

End SelectorFacts.

(* ------------------------------------------------------------------ *)
(** ** Properties of [selectBestFormat] *)

Import JsNumber Props NumberFacts ArrayFacts SelectorFacts Samples.

(** C5.  With [mediaType = audio], every format the filter keeps carries
    audio and no video; in the ytdl service it is moreover in the mp4
    container. *)
Theorem audio_filter_keeps_audio_only (formats : list Format) (f : Format) :
  (In f (filter (Ytdl.keeps audio) formats) ->
   hasAudio f = true /\ hasVideo f = false /\ container f = js "mp4") /\
  (In f (filter (Direct.keeps audio) formats) ->
   hasAudio f = true /\ hasVideo f = false).
Proof.
  split; intros H; apply filter_In in H as [_ K]; cbn in K.
  - apply andb_true_iff in K as [K C]. apply andb_true_iff in K as [Ha Hv].
    apply eqb_eq in C. apply negb_true_iff in Hv. auto.
  - apply andb_true_iff in K as [Ha Hv]. apply negb_true_iff in Hv. auto.
Qed.

Lemma audio_filter_keeps_audio_only_witness :
  hasAudio audio_m4a = true /\ hasVideo audio_m4a = false /\
  container audio_m4a = js "mp4".
Proof.
  apply (proj1 (audio_filter_keeps_audio_only
                  [mp4_720p; audio_webm; audio_m4a] audio_m4a)).
  vm_compute. auto.
Defined.

(** C6.  With [mediaType = video], every format the filter keeps carries
    video and audio and is in the mp4 container, in both services. *)
Theorem video_filter_keeps_muxed_mp4 (formats : list Format) (f : Format) :
  (In f (filter (Ytdl.keeps video) formats) ->
   hasVideo f = true /\ hasAudio f = true /\ container f = js "mp4") /\
  (In f (filter (Direct.keeps video) formats) ->
   hasVideo f = true /\ hasAudio f = true /\ container f = js "mp4").
Proof.
  split; intros H; apply filter_In in H as [_ K]; cbn in K;
    apply andb_true_iff in K as [K C]; apply andb_true_iff in K as [Hv Ha];
    apply eqb_eq in C; auto.
Qed.

Lemma video_filter_keeps_muxed_mp4_witness :
  hasVideo mp4_720p = true /\ hasAudio mp4_720p = true /\
  container mp4_720p = js "mp4".
Proof.
  apply (proj1 (video_filter_keeps_muxed_mp4
                  [webm_2160p; mp4_720p; audio_m4a] mp4_720p)).
  vm_compute. auto.
Defined.

(** C4.  When the filter keeps nothing, the selector returns [null],
    whatever the requested quality, in both services. *)
Theorem empty_filter_selects_nothing
    (formats : list Format) (mediaType : mediaType) (wanted : option jsstring) :
  (filter (Ytdl.keeps mediaType) formats = [] ->
   Ytdl.selectBestFormat formats mediaType wanted = None) /\
  (filter (Direct.keeps mediaType) formats = [] ->
   forall toLowerCase,
     Direct.selectBestFormat toLowerCase formats mediaType wanted = None).
Proof.
  split.
  - intros E. unfold Ytdl.selectBestFormat. now rewrite E.
  - intros E lower. unfold Direct.selectBestFormat. now rewrite E.
Qed.

Lemma empty_filter_selects_nothing_witness :
  Ytdl.selectBestFormat [webm_2160p; audio_m4a] video (Some (js "720p")) = None.
Proof.
  apply (proj1 (empty_filter_selects_nothing
                  [webm_2160p; audio_m4a] video (Some (js "720p")))).
  reflexivity.
Defined.

(** C10.  A format the selector returns is one of the formats the filter
    kept, hence one of the formats it was given, in both services. *)
Theorem selected_format_is_input
    (formats : list Format) (mediaType : mediaType) (wanted : option jsstring)
    (d : Format) :
  (Ytdl.selectBestFormat formats mediaType wanted = Some d ->
   In d (filter (Ytdl.keeps mediaType) formats) /\ In d formats) /\
  (forall toLowerCase,
     Direct.selectBestFormat toLowerCase formats mediaType wanted = Some d ->
     In d (filter (Direct.keeps mediaType) formats) /\ In d formats).
Proof.
  split.
  - unfold Ytdl.selectBestFormat.
    destruct (filter (Ytdl.keeps mediaType) formats) as [|first rest] eqn:E;
      [discriminate|].
    intros H.
    assert (I : In d (first :: rest)).
    { destruct (Ytdl.qualityStage wanted (first :: rest)) eqn:Q;
        injection H as <-.
      - now apply ytdl_stage_in in Q.
      - exact (leftmost_max_in (ytdl_default_leftmost first rest)). }
    split; trivial. rewrite <- E in I. now apply filter_In in I.
  - intros lower. unfold Direct.selectBestFormat.
    destruct (filter (Direct.keeps mediaType) formats) as [|first rest] eqn:E;
      [discriminate|].
    intros H.
    assert (I : In d (first :: rest)).
    { destruct (Direct.qualityStage lower wanted (first :: rest)) eqn:Q;
        injection H as <-.
      - now apply direct_stage_in in Q.
      - exact (rightmost_max_in (direct_default_rightmost first rest)). }
    split; trivial. rewrite <- E in I. now apply filter_In in I.
Qed.

Lemma selected_format_is_input_witness :
  In mp4_720p (filter (Ytdl.keeps video) [webm_2160p; mp4_1080p; mp4_720p]) /\
  In mp4_720p [webm_2160p; mp4_1080p; mp4_720p].
Proof.
  apply (proj1 (selected_format_is_input
                  [webm_2160p; mp4_1080p; mp4_720p] video (Some (js "720p"))
                  mp4_720p)).
  reflexivity.
Defined.

(** C3.  When the filter keeps at least one format, the ytdl selector
    returns a format, never [null]; and when a quality was requested but no
    kept format has a parsed height within the target, the result is the one
    of the default stage, the leftmost kept format of greatest height. *)
Theorem nonempty_filter_selects
    (formats : list Format) (mediaType : mediaType) (wanted : option jsstring)
    (first : Format) (rest : list Format) :
  filter (Ytdl.keeps mediaType) formats = first :: rest ->
  (exists d, Ytdl.selectBestFormat formats mediaType wanted = Some d) /\
  ((forall q, wanted = Some q ->
    forall x, In x (first :: rest) -> Ytdl.fits (Ytdl.targetHeight q) x = false) ->
   Ytdl.selectBestFormat formats mediaType wanted
     = Some (Ytdl.defaultStage first rest) /\
   leftmost_max Ytdl.parsedHeight (first :: rest) (Ytdl.defaultStage first rest)).
Proof.
  intros E. rewrite (ytdl_select_cons _ _ wanted E). split.
  - destruct (Ytdl.qualityStage wanted (first :: rest)); eauto.
  - intros H. split; [|apply ytdl_default_leftmost].
    replace (Ytdl.qualityStage wanted (first :: rest)) with (@None Format);
      trivial.
    symmetry. unfold Ytdl.qualityStage. destruct wanted as [q|]; trivial.
    destruct (JsString.truthy q); trivial.
    apply find_none_iff. now apply H.
Qed.

Lemma nonempty_filter_selects_witness :
  Ytdl.selectBestFormat [mp4_1080p; mp4_1440p60] video (Some (js "720p"))
  = Some mp4_1440p60.
Proof.
  refine (proj1 (proj2 (nonempty_filter_selects
                   [mp4_1080p; mp4_1440p60] video (Some (js "720p"))
                   (first := mp4_1080p) (rest := [mp4_1440p60]) eq_refl) _)).
  intros q [= <-] x [<-|[<-|[]]]; reflexivity.
Defined.

(** The direct-link selector never returns [null] either when the filter
    keeps a format. *)
Lemma direct_nonempty_filter_selects toLowerCase
    (formats : list Format) (mediaType : mediaType) (wanted : option jsstring) :
  filter (Direct.keeps mediaType) formats <> [] ->
  exists d, Direct.selectBestFormat toLowerCase formats mediaType wanted = Some d.
Proof.
  intros NE.
  destruct (filter (Direct.keeps mediaType) formats) as [|first rest] eqn:E;
    [congruence|].
  rewrite (direct_select_cons toLowerCase _ _ wanted E).
  destruct (Direct.qualityStage toLowerCase wanted (first :: rest)); eauto.
Qed.

(** C2, as the code has it.  When the quality stage returns nothing (no
    quality requested, or none found), the result is a kept format of
    greatest parsed height: the leftmost such format in the ytdl service,
    the rightmost one in the direct-link service. *)
Theorem default_stage_maximum :
  (forall formats mediaType wanted first rest,
      filter (Ytdl.keeps mediaType) formats = first :: rest ->
      Ytdl.qualityStage wanted (first :: rest) = None ->
      exists r,
        Ytdl.selectBestFormat formats mediaType wanted = Some r /\
        leftmost_max Ytdl.parsedHeight (first :: rest) r /\
        forall x, In x (first :: rest) ->
                  leb (Ytdl.parsedHeight x) (Ytdl.parsedHeight r) = true) /\
  (forall toLowerCase formats mediaType wanted first rest,
      filter (Direct.keeps mediaType) formats = first :: rest ->
      Direct.qualityStage toLowerCase wanted (first :: rest) = None ->
      exists r,
        Direct.selectBestFormat toLowerCase formats mediaType wanted = Some r /\
        rightmost_max Direct.parsedHeight (first :: rest) r /\
        forall x, In x (first :: rest) ->
                  leb (Direct.parsedHeight x) (Direct.parsedHeight r) = true).
Proof.
  split.
  - intros formats mediaType wanted first rest E Q.
    exists (Ytdl.defaultStage first rest).
    rewrite (ytdl_select_cons _ _ wanted E), Q.
    pose proof (ytdl_default_leftmost first rest) as L.
    repeat split; trivial.
    apply (leftmost_max_greatest (ytdl_height_not_nan _) L).
  - intros lower formats mediaType wanted first rest E Q.
    exists (Direct.defaultStage first rest).
    rewrite (direct_select_cons lower _ _ wanted E), Q.
    pose proof (direct_default_rightmost first rest) as L.
    repeat split; trivial.
    apply (rightmost_max_greatest (direct_height_not_nan _) L).
Qed.

Lemma default_stage_maximum_witness :
  exists r,
    Ytdl.selectBestFormat [mp4_480p; mp4_720p; mp4_720p_hdr] video None = Some r /\
    leftmost_max Ytdl.parsedHeight [mp4_480p; mp4_720p; mp4_720p_hdr] r /\
    forall x, In x [mp4_480p; mp4_720p; mp4_720p_hdr] ->
              leb (Ytdl.parsedHeight x) (Ytdl.parsedHeight r) = true.
Proof.
  apply (proj1 default_stage_maximum
           [mp4_480p; mp4_720p; mp4_720p_hdr] video None
           mp4_480p [mp4_720p; mp4_720p_hdr]); reflexivity.
Defined.

(** C2 fails as stated on the direct-link service: of two kept formats of
    the same greatest height it returns the later one. *)
Lemma direct_default_stage_keeps_latest :
  Direct.parsedHeight mp4_720p = Direct.parsedHeight mp4_720p_hdr /\
  filter (Direct.keeps video) [mp4_480p; mp4_720p; mp4_720p_hdr]
    = [mp4_480p; mp4_720p; mp4_720p_hdr] /\
  leftmost_max Direct.parsedHeight [mp4_480p; mp4_720p; mp4_720p_hdr] mp4_720p /\
  (forall toLowerCase,
     Direct.selectBestFormat toLowerCase
       [mp4_480p; mp4_720p; mp4_720p_hdr] video None = Some mp4_720p_hdr) /\
  mp4_720p_hdr <> mp4_720p.
Proof.
  repeat split; try discriminate.
  exists [mp4_480p], [mp4_720p_hdr]. repeat split.
  - intros x [<-|[]]. reflexivity.
  - intros x [<-|[]]. reflexivity.
Qed.

(** C1, as the code has it.  In the ytdl service, for a requested quality
    that is a non-empty label and no property name inherited from
    [Object.prototype], the target height is the one of the fixed table
    (1080 for a label outside it), and the selector returns the first kept
    format, in the order of the array, whose parsed height is at most the
    target.  In the direct-link service, for a non-empty label, the selector
    returns instead the first kept format whose lower-cased quality label
    contains the lower-cased requested label. *)
Theorem quality_stage_by_service :
  (forall formats mediaType wanted,
      JsString.truthy wanted = true ->
      Ytdl.inherited wanted = false ->
      Ytdl.targetHeight wanted = Ytdl.Number (Fin (spec_target wanted)) /\
      forall d,
        first_accepted
          (fun f => leb (Ytdl.parsedHeight f) (Fin (spec_target wanted)))
          (filter (Ytdl.keeps mediaType) formats) d ->
        Ytdl.selectBestFormat formats mediaType (Some wanted) = Some d) /\
  (forall toLowerCase formats mediaType wanted d,
      JsString.truthy wanted = true ->
      first_accepted (Direct.labelMatches toLowerCase wanted)
        (filter (Direct.keeps mediaType) formats) d ->
      Direct.selectBestFormat toLowerCase formats mediaType (Some wanted) = Some d).
Proof.
  split.
  - intros formats mediaType wanted T NI.
    pose proof (target_height_spec wanted NI) as TH. split; trivial.
    intros d FA. pose proof (first_accepted_in FA) as I.
    apply find_first_accepted in FA.
    destruct (filter (Ytdl.keeps mediaType) formats) as [|first rest] eqn:E;
      [destruct I|].
    rewrite (ytdl_select_cons _ _ (Some wanted) E).
    unfold Ytdl.qualityStage. rewrite T, TH.
    unfold Ytdl.fits, Ytdl.toNumber. now rewrite FA.
  - intros lower formats mediaType wanted d T FA.
    pose proof (first_accepted_in FA) as I.
    apply find_first_accepted in FA.
    destruct (filter (Direct.keeps mediaType) formats) as [|first rest] eqn:E;
      [destruct I|].
    rewrite (direct_select_cons lower _ _ (Some wanted) E).
    unfold Direct.qualityStage. now rewrite T, FA.
Qed.

Lemma quality_stage_by_service_witness :
  Ytdl.selectBestFormat [mp4_1080p; mp4_720p] video (Some (js "720p"))
  = Some mp4_720p.
Proof.
  refine (proj2 (proj1 quality_stage_by_service
                   [mp4_1080p; mp4_720p] video (js "720p") eq_refl eq_refl)
            mp4_720p _).
  exists [mp4_1080p], []. repeat split.
  intros x [<-|[]]. reflexivity.
Defined.

(** C1 fails as stated on the direct-link service.  For the requested
    quality 1440p60, a label outside the table, the target height is 1080
    and the first kept format within it is the 720p one; the service returns
    the 1440p60 format, whose label is the requested one. *)
Lemma direct_quality_stage_matches_label :
  spec_target (js "1440p60") = 1080%Z /\
  filter (Direct.keeps video) [mp4_1440p60; mp4_720p] = [mp4_1440p60; mp4_720p] /\
  first_accepted
    (fun f => leb (Direct.parsedHeight f) (Fin (spec_target (js "1440p60"))))
    [mp4_1440p60; mp4_720p] mp4_720p /\
  (forall toLowerCase,
     Direct.selectBestFormat toLowerCase
       [mp4_1440p60; mp4_720p] video (Some (js "1440p60")) = Some mp4_1440p60) /\
  mp4_1440p60 <> mp4_720p.
Proof.
  split; [reflexivity|]. split; [reflexivity|]. split; [|split; [|discriminate]].
  - exists [mp4_1440p60], []. repeat split.
    intros x [<-|[]]. reflexivity.
  - intros lower. unfold Direct.selectBestFormat.
    change (filter (Direct.keeps video) [mp4_1440p60; mp4_720p])
      with [mp4_1440p60; mp4_720p].
    cbv beta iota zeta. unfold Direct.qualityStage.
    change (JsString.truthy (js "1440p60")) with true. cbv iota.
    unfold find, Direct.labelMatches.
    change (quality mp4_1440p60) with (js "1440p60").
    now rewrite includes_refl.
Qed.

(** In the ytdl service a requested quality that names an inherited
    property, such as [constructor], gives no numeric target: no format is
    within it and the default stage decides. *)
Lemma inherited_label_finds_nothing (wanted : jsstring) (l : list Format) :
  JsString.truthy wanted = true ->
  Ytdl.inherited wanted = true ->
  Ytdl.qualityStage (Some wanted) l = None.
Proof.
  intros T I. unfold Ytdl.qualityStage. rewrite T.
  assert (TH : Ytdl.targetHeight wanted = Ytdl.Inherited).
  { unfold Ytdl.targetHeight, Ytdl.lookup. rewrite I.
    assert (O : Ytdl.own Ytdl.qualityMap wanted = None).
    { unfold Ytdl.inherited, Ytdl.objectPrototype in I. cbn in I.
      repeat match type of I with
             | (JsString.eqb wanted ?k || _) = true =>
                 apply orb_true_iff in I as [I|I];
                 [apply eqb_eq in I; subst wanted; reflexivity|]
             end.
      discriminate. }
    now rewrite O. }
  rewrite TH. apply find_none_iff. intros x _.
  unfold Ytdl.fits. cbn. apply leb_nan_r.
Qed.

Example constructor_label_falls_through :
  Ytdl.selectBestFormat [mp4_720p; mp4_1080p] video (Some (js "constructor"))
  = Some mp4_1080p.
Proof. reflexivity. Qed.

(* ------------------------------------------------------------------ *)
(** ** What [parseInt] reads *)

Module ParseFacts.
Import JsString JsNumber ParseInt Props.

Lemma blank_range (c : N) :
  is_white_space c = true -> (c <= 32 \/ 160 <= c)%N.
Proof.
  unfold is_white_space.
  rewrite !orb_true_iff, !andb_true_iff, !N.leb_le, !N.eqb_eq. lia.
Qed.

Lemma digit_range (R : Z) (c : N) :
  is_digit R c = true -> (48 <= c <= 122)%N.
Proof.
  unfold is_digit, digit.
  destruct ((48 <=? c) && (c <=? 57))%N eqn:D.
  { apply andb_true_iff in D as [L U]. apply N.leb_le in L, U. lia. }
  destruct ((97 <=? c) && (c <=? 122))%N eqn:Lo.
  { apply andb_true_iff in Lo as [L U]. apply N.leb_le in L, U. lia. }
  destruct ((65 <=? c) && (c <=? 90))%N eqn:Up; [|discriminate].
  apply andb_true_iff in Up as [L U]. apply N.leb_le in L, U. lia.
Qed.

Lemma digit_not_blank (R : Z) (c : N) :
  is_digit R c = true -> is_white_space c = false.
Proof.
  intros D. apply digit_range in D.
  destruct (is_white_space c) eqn:B; trivial.
  apply blank_range in B. lia.
Qed.

Lemma trimStart_blanks (ws s : jsstring) :
  Forall (fun c => is_white_space c = true) ws ->
  trimStart (ws ++ s) = trimStart s.
Proof. induction 1 as [|c ws B _ IH]; cbn; trivial. now rewrite B. Qed.

Lemma trimStart_solid (c : N) (s : jsstring) :
  is_white_space c = false -> trimStart (c :: s) = c :: s.
Proof. intros B. cbn. now rewrite B. Qed.

Lemma digits_stop (R : Z) (s : jsstring) :
  digit_next R s = false -> digits R s = [].
Proof.
  destruct s as [|c s]; cbn; trivial. unfold is_digit.
  destruct (digit c) as [d|]; trivial. now intros ->.
Qed.

Lemma digits_run (R : Z) (run rest : jsstring) :
  Forall (fun c => is_digit R c = true) run ->
  digit_next R rest = false ->
  digits R (run ++ rest) = values run.
Proof.
  intros F St. induction F as [|c run D _ IH]; cbn.
  - now apply digits_stop.
  - unfold is_digit in D. destruct (digit c) as [d|]; [|discriminate].
    rewrite D. f_equal. exact IH.
Qed.

Lemma fold_positional (R : Z) (vs : list Z) (acc : Z) :
  fold_left (fun a d => (a * R + d)%Z) vs acc
  = (acc * R ^ Z.of_nat (List.length vs) + positional R vs)%Z.
Proof.
  revert acc. induction vs as [|v vs IH]; intros acc.
  - cbn. lia.
  - cbn [fold_left positional List.length]. rewrite IH.
    rewrite Nat2Z.inj_succ, Z.pow_succ_r by lia. lia.
Qed.

Lemma mathInt_positional (R : Z) (vs : list Z) :
  mathInt R vs = positional R vs.
Proof. unfold mathInt. rewrite fold_positional. lia. Qed.

Lemma values_nonempty (run : jsstring) : run <> [] -> values run <> [].
Proof. destruct run; [congruence|discriminate]. Qed.

(** After the blanks, the sign is read and dropped. *)
Lemma sign_then_digits (R : Z) (ws sg : jsstring) (c : N) (s : jsstring) :
  Forall (fun c => is_white_space c = true) ws ->
  is_sign sg ->
  is_digit R c = true ->
  trimStart (ws ++ sg ++ c :: s) = sg ++ c :: s /\
  sign_of (sg ++ c :: s) = sign_of sg /\
  drop_sign (sg ++ c :: s) = c :: s.
Proof.
  intros B S D. rewrite trimStart_blanks by exact B.
  pose proof D as Rg. apply digit_range in Rg.
  destruct S as [->|[->| ->]]; cbn [app].
  - rewrite trimStart_solid by (eapply digit_not_blank; exact D).
    unfold sign_of, drop_sign.
    replace (c =? 45)%N with false by (symmetry; apply N.eqb_neq; lia).
    replace (c =? 43)%N with false by (symmetry; apply N.eqb_neq; lia).
    auto.
  - auto.
  - auto.
Qed.

(** A run of decimal digits, after blanks and an optional sign and up to the
    first code unit that is no decimal digit, is read as the integer it
    writes; what follows is ignored. *)
Lemma parseInt_leading_decimal (ws sg run rest : jsstring) :
  Forall (fun c => is_white_space c = true) ws ->
  is_sign sg ->
  run <> [] ->
  Forall (fun c => is_digit 10 c = true) run ->
  digit_next 10 rest = false ->
  hex_prefixed (run ++ rest) = false ->
  parseInt (ws ++ sg ++ run ++ rest)
  = of_Z (sign_of sg * positional 10 (values run)).
Proof.
  intros B S NE F St NH.
  destruct run as [|c run]; [congruence|]. cbn [app] in *.
  pose proof (Forall_inv F) as D.
  destruct (@sign_then_digits 10 ws sg c (run ++ rest) B S D) as (T & Sg & Dr).
  unfold parseInt. rewrite T, Sg, Dr. unfold strip_prefix. rewrite NH.
  change (c :: run ++ rest) with ((c :: run) ++ rest).
  rewrite (@digits_run _ _ _ F St). unfold values. cbn [map].
  now rewrite mathInt_positional.
Qed.

(** After [0x] or [0X], a run of hexadecimal digits is read as the integer
    it writes in radix 16. *)
Lemma parseInt_leading_hex (ws sg : jsstring) (x : N) (run rest : jsstring) :
  Forall (fun c => is_white_space c = true) ws ->
  is_sign sg ->
  x = 120%N \/ x = 88%N ->
  run <> [] ->
  Forall (fun c => is_digit 16 c = true) run ->
  digit_next 16 rest = false ->
  parseInt (ws ++ sg ++ 48%N :: x :: run ++ rest)
  = of_Z (sign_of sg * positional 16 (values run)).
Proof.
  intros B S X NE F St.
  assert (D : is_digit 10 48 = true) by reflexivity.
  destruct (@sign_then_digits 10 ws sg 48%N (x :: run ++ rest) B S D)
    as (T & Sg & Dr).
  unfold parseInt. rewrite T, Sg, Dr. unfold strip_prefix.
  assert (H : hex_prefixed (48%N :: x :: run ++ rest) = true)
    by (destruct X as [->| ->]; reflexivity).
  rewrite H. cbn [skipn].
  rewrite (@digits_run _ _ _ F St).
  destruct run as [|c run]; [congruence|]. unfold values. cbn [map].
  now rewrite mathInt_positional.
Qed.

(** A bare [0x] or [0X], with no hexadecimal digit after it, is read as
    NaN. *)
Lemma parseInt_bare_hex_prefix (ws sg : jsstring) (x : N) (rest : jsstring) :
  Forall (fun c => is_white_space c = true) ws ->
  is_sign sg ->
  x = 120%N \/ x = 88%N ->
  digit_next 16 rest = false ->
  parseInt (ws ++ sg ++ 48%N :: x :: rest) = NaN.
Proof.
  intros B S X St.
  assert (D : is_digit 10 48 = true) by reflexivity.
  destruct (@sign_then_digits 10 ws sg 48%N (x :: rest) B S D)
    as (T & Sg & Dr).
  unfold parseInt. rewrite T, Sg, Dr. unfold strip_prefix.
  assert (H : hex_prefixed (48%N :: x :: rest) = true)
    by (destruct X as [->| ->]; reflexivity).
  rewrite H. cbn [skipn]. now rewrite digits_stop by exact St.
Qed.

(** A text that is not numeric is read as NaN. *)
Lemma parseInt_non_numeric (s : jsstring) :
  numeric s = false -> parseInt s = NaN.
Proof.
  unfold numeric, parseInt. set (t := drop_sign (trimStart s)). intros NN.
  assert (H : hex_prefixed t = false).
  { destruct t as [|c0 [|c1 t]]; trivial. cbn in *.
    destruct (c0 =? 48)%N eqn:E; trivial.
    apply N.eqb_eq in E. subst c0. discriminate. }
  unfold strip_prefix. rewrite H. now rewrite digits_stop by exact NN.
Qed.

(** An integer below 2^53 in magnitude is its own Number value. *)
Lemma of_Z_exact (z : Z) : (Z.abs z < 2 ^ 53)%Z -> of_Z z = Fin z.
Proof.
  intros Hz. unfold of_Z, round53.
  assert (K : (Z.log2 (Z.abs z) - 52 <=? 0)%Z = true).
  { apply Z.leb_le. destruct (Z.eq_dec (Z.abs z) 0) as [->|NZ]; [cbn; lia|].
    assert (Z.log2 (Z.abs z) < 53)%Z by (apply Z.log2_lt_pow2; lia). lia. }
  rewrite K.
  assert (L : (Z.shiftl 1 1024 <=? Z.abs z)%Z = false).
  { apply Z.leb_gt. rewrite Z.shiftl_1_l.
    apply Z.lt_trans with (1 := Hz). apply Z.pow_lt_mono_r; lia. }
  rewrite L. f_equal. lia.
Qed.

End ParseFacts.

(* ------------------------------------------------------------------ *)
(** ** Height parsing and the reduction *)

Import ParseFacts.

Lemma missing_height_is_zero (f : Format) :
  height f = None -> Ytdl.parsedHeight f = Fin 0.
Proof. unfold Ytdl.parsedHeight. now intros ->. Qed.

Lemma non_numeric_is_zero (s : jsstring) :
  numeric s = false -> or_zero (ParseInt.parseInt s) = Fin 0.
Proof. intros NN. now rewrite parseInt_non_numeric. Qed.

Lemma zero_loses_to_positive {A} (h : A -> number) (l : list A) (r z p : A) :
  (forall x, In x l -> leb (h x) (h r) = true) ->
  In p l -> h z = Fin 0 -> positive (h p) -> r <> z.
Proof.
  intros G I Z P ->. specialize (G p I). rewrite Z in G.
  apply leb_not_ltb in G. unfold positive in P. congruence.
Qed.

(** C7, as the code has it.  [parseInt] reads the leading integer of the
    height text: after blanks and an optional sign, a run of decimal digits
    up to the first other code unit (or, after [0x], a run of hexadecimal
    digits) gives the integer it writes, exactly so below 2^53.  A text that
    is not numeric, among them the empty one and [abc], a bare [0x] and a
    missing height parse to 0.  In the reduction of either service a format
    that parses to 0 is never the result when some kept format has a
    positive parsed height; so, when the quality stage returns nothing, it
    is selected only when no kept format has a positive parsed height.  In
    the quality stage of the ytdl service a format that parses to 0 is
    within every numeric target. *)
Theorem height_parsing :
  (forall ws sg run rest,
      Forall (fun c => JsString.is_white_space c = true) ws ->
      is_sign sg ->
      run <> [] ->
      Forall (fun c => ParseInt.is_digit 10 c = true) run ->
      digit_next 10 rest = false ->
      ParseInt.hex_prefixed (run ++ rest) = false ->
      ParseInt.parseInt (ws ++ sg ++ run ++ rest)
      = of_Z (ParseInt.sign_of sg * positional 10 (values run))) /\
  (forall ws sg x run rest,
      Forall (fun c => JsString.is_white_space c = true) ws ->
      is_sign sg ->
      x = 120%N \/ x = 88%N ->
      run <> [] ->
      Forall (fun c => ParseInt.is_digit 16 c = true) run ->
      digit_next 16 rest = false ->
      ParseInt.parseInt (ws ++ sg ++ 48%N :: x :: run ++ rest)
      = of_Z (ParseInt.sign_of sg * positional 16 (values run))) /\
  (forall ws sg x rest,
      Forall (fun c => JsString.is_white_space c = true) ws ->
      is_sign sg ->
      x = 120%N \/ x = 88%N ->
      digit_next 16 rest = false ->
      or_zero (ParseInt.parseInt (ws ++ sg ++ 48%N :: x :: rest)) = Fin 0) /\
  (forall z, (Z.abs z < 2 ^ 53)%Z -> of_Z z = Fin z) /\
  (forall f,
      height f = None \/
      (exists s, height f = Some s /\ numeric s = false) ->
      Ytdl.parsedHeight f = Fin 0) /\
  (forall f, numeric (resolution f) = false -> Direct.parsedHeight f = Fin 0) /\
  numeric (js "") = false /\ numeric (js "abc") = false /\
  (forall first rest z p,
      In p (first :: rest) ->
      Ytdl.parsedHeight z = Fin 0 -> positive (Ytdl.parsedHeight p) ->
      Ytdl.defaultStage first rest <> z) /\
  (forall first rest z p,
      In p (first :: rest) ->
      Direct.parsedHeight z = Fin 0 -> positive (Direct.parsedHeight p) ->
      Direct.defaultStage first rest <> z) /\
  (forall formats mediaType wanted z p,
      Ytdl.qualityStage wanted (filter (Ytdl.keeps mediaType) formats) = None ->
      Ytdl.selectBestFormat formats mediaType wanted = Some z ->
      Ytdl.parsedHeight z = Fin 0 ->
      In p (filter (Ytdl.keeps mediaType) formats) ->
      ~ positive (Ytdl.parsedHeight p)) /\
  (forall toLowerCase formats mediaType wanted z p,
      Direct.qualityStage toLowerCase wanted
        (filter (Direct.keeps mediaType) formats) = None ->
      Direct.selectBestFormat toLowerCase formats mediaType wanted = Some z ->
      Direct.parsedHeight z = Fin 0 ->
      In p (filter (Direct.keeps mediaType) formats) ->
      ~ positive (Direct.parsedHeight p)) /\
  (forall wanted f,
      Ytdl.inherited wanted = false ->
      Ytdl.parsedHeight f = Fin 0 ->
      Ytdl.fits (Ytdl.targetHeight wanted) f = true).
Proof.
  split; [exact parseInt_leading_decimal|].
  split; [exact parseInt_leading_hex|].
  split.
  { intros ws sg x rest B S X St.
    now rewrite parseInt_bare_hex_prefix. }
  split; [exact of_Z_exact|].
  split.
  { intros f [N|(s & E & NN)].
    - now apply missing_height_is_zero.
    - unfold Ytdl.parsedHeight, ParseInt.parseInt_opt. rewrite E.
      now apply non_numeric_is_zero. }
  split; [intros f NN; now apply non_numeric_is_zero|].
  split; [reflexivity|]. split; [reflexivity|].
  assert (Y : forall first rest z p,
             In p (first :: rest) ->
             Ytdl.parsedHeight z = Fin 0 -> positive (Ytdl.parsedHeight p) ->
             Ytdl.defaultStage first rest <> z).
  { intros first rest z p I Z P.
    eapply zero_loses_to_positive; eauto.
    apply (leftmost_max_greatest (ytdl_height_not_nan _)).
    apply ytdl_default_leftmost. }
  assert (D : forall first rest z p,
             In p (first :: rest) ->
             Direct.parsedHeight z = Fin 0 -> positive (Direct.parsedHeight p) ->
             Direct.defaultStage first rest <> z).
  { intros first rest z p I Z P.
    eapply zero_loses_to_positive; eauto.
    apply (rightmost_max_greatest (direct_height_not_nan _)).
    apply direct_default_rightmost. }
  split; [exact Y|]. split; [exact D|]. split; [|split].
  - intros formats mediaType wanted z p Q S Z I P.
    destruct (filter (Ytdl.keeps mediaType) formats) as [|first rest] eqn:E;
      [destruct I|].
    rewrite (ytdl_select_cons _ _ wanted E), Q in S. injection S as S.
    exact (Y first rest z p I Z P S).
  - intros lower formats mediaType wanted z p Q S Z I P.
    destruct (filter (Direct.keeps mediaType) formats) as [|first rest] eqn:E;
      [destruct I|].
    rewrite (direct_select_cons lower _ _ wanted E), Q in S.
    injection S as S.
    exact (D first rest z p I Z P S).
  - intros wanted f NI Z. unfold Ytdl.fits.
    rewrite (target_height_spec wanted NI), Z. cbn.
    apply negb_true_iff, Z.ltb_ge.
    pose proof (spec_target_positive wanted). lia.
Qed.

Lemma height_parsing_witness :
  ParseInt.parseInt (js " 1080p60") = Fin 1080 /\
  Ytdl.defaultStage mp4_unknown [mp4_480p] <> mp4_unknown.
Proof.
  split.
  - refine (eq_trans
              (proj1 height_parsing [32%N] [] (js "1080") (js "p60") _ _ _ _ _ _)
              _).
    + repeat constructor.
    + left. reflexivity.
    + discriminate.
    + repeat constructor.
    + reflexivity.
    + reflexivity.
    + reflexivity.
  - refine (proj1 (proj2 (proj2 (proj2 (proj2 (proj2 (proj2 (proj2 (proj2
              height_parsing))))))))
              mp4_unknown [mp4_480p] mp4_unknown mp4_480p _ _ _).
    + right. left. reflexivity.
    + reflexivity.
    + reflexivity.
Defined.

(** C7 fails as stated on the quality stage.  With the quality 720p
    requested, the ytdl service returns the format whose height is missing,
    which parses to 0 and comes first, although the 720p format is kept and
    has a positive parsed height. *)
Lemma quality_stage_selects_zero_height :
  Ytdl.selectBestFormat [mp4_unknown; mp4_720p] video (Some (js "720p"))
  = Some mp4_unknown /\
  Ytdl.parsedHeight mp4_unknown = Fin 0 /\
  In mp4_720p (filter (Ytdl.keeps video) [mp4_unknown; mp4_720p]) /\
  positive (Ytdl.parsedHeight mp4_720p).
Proof.
  split; [reflexivity|]. split; [reflexivity|]. split; [|reflexivity].
  right. left. reflexivity.
Qed.

(* ------------------------------------------------------------------ *)
(** ** [getVideoMetadata] *)

(** C8.  [getVideoMetadata] throws exactly when the provider gave nothing
    usable: the call failed, the response is absent or marked unsuccessful,
    or it carries no data.  Otherwise it returns the [data] of the response
    as it is. *)
Theorem metadata_passes_through (T : Type) (call : Metadata.settled T) :
  ((exists message, Metadata.getVideoMetadata call = Metadata.Throws T message)
   <-> unusable call) /\
  (forall response d,
      call = Metadata.Resolved (Some response) ->
      Metadata.success response = true ->
      Metadata.data response = Some d ->
      Metadata.getVideoMetadata call = Metadata.Returns d).
Proof.
  split.
  - unfold Metadata.getVideoMetadata, Metadata.attempt, unusable.
    destruct call as [[[[] [d|]]|]|m]; cbn; split;
      try (intros _; eauto; fail);
      try (intros (message & H); discriminate H);
      try (intros [H|H]; discriminate H).
  - intros response d -> S D.
    unfold Metadata.getVideoMetadata, Metadata.attempt. now rewrite S, D.
Qed.

Lemma metadata_passes_through_witness :
  Metadata.getVideoMetadata
    (Metadata.Resolved
       (Some {| Metadata.success := true; Metadata.data := Some 2026%nat |}))
  = Metadata.Returns 2026%nat.
Proof.
  exact (proj2 (metadata_passes_through
                  (Metadata.Resolved
                     (Some {| Metadata.success := true;
                              Metadata.data := Some 2026%nat |})))
           _ _ eq_refl eq_refl eq_refl).
Defined.

(* ------------------------------------------------------------------ *)
(** ** [sanitizeFilename] *)

Module SanitizeFacts.
Import JsString Props.

Lemma trimStart_split (s : jsstring) :
  exists ws, s = ws ++ trimStart s.
Proof.
  induction s as [|c s (ws & IH)]; [now exists []|]. cbn.
  destruct (is_white_space c); [|now exists []].
  exists (c :: ws). cbn. now f_equal.
Qed.

Lemma trimEnd_split (s : jsstring) :
  exists ws, s = trimEnd s ++ ws.
Proof.
  unfold trimEnd. destruct (trimStart_split (rev s)) as (ws & E).
  exists (rev ws). rewrite <- rev_app_distr, <- E. now rewrite rev_involutive.
Qed.

Lemma trimStart_head (s : jsstring) :
  match trimStart s with
  | c :: _ => is_white_space c = false
  | [] => True
  end.
Proof.
  induction s as [|c s IH]; cbn; trivial.
  destruct (is_white_space c) eqn:B; trivial.
Qed.

Lemma trimStart_fixed (s : jsstring) :
  match s with c :: _ => is_white_space c = false | [] => True end ->
  trimStart s = s.
Proof. destruct s as [|c s]; cbn; trivial. now intros ->. Qed.

Lemma trimStart_idem (s : jsstring) : trimStart (trimStart s) = trimStart s.
Proof. apply trimStart_fixed, trimStart_head. Qed.

Lemma trimStart_snoc (s : jsstring) (c : N) :
  is_white_space c = false -> trimStart (s ++ [c]) = trimStart s ++ [c].
Proof.
  intros B. induction s as [|a s IH]; cbn.
  - now rewrite B.
  - destruct (is_white_space a); trivial.
Qed.

Lemma trim_trimmed (s : jsstring) : trimmed (trim s).
Proof.
  unfold trimmed, trim, trimEnd. split.
  - pose proof (trimStart_head s) as H.
    destruct (trimStart s) as [|c t]; trivial.
    cbn [rev]. rewrite trimStart_snoc by exact H.
    rewrite rev_app_distr. cbn. now rewrite H.
  - now rewrite rev_involutive, trimStart_idem.
Qed.

Lemma trim_length (s : jsstring) : (List.length (trim s) <= List.length s)%nat.
Proof.
  unfold trim.
  destruct (trimStart_split s) as (ws & E).
  destruct (trimEnd_split (trimStart s)) as (ws' & E').
  rewrite E at 2. rewrite E' at 2. rewrite !length_app. lia.
Qed.

Lemma trim_Forall (P : N -> Prop) (s : jsstring) :
  Forall P s -> Forall P (trim s).
Proof.
  unfold trim.
  destruct (trimStart_split s) as (ws & E).
  destruct (trimEnd_split (trimStart s)) as (ws' & E').
  intros F. rewrite E in F. apply Forall_app in F as [_ F].
  rewrite E' in F. now apply Forall_app in F as [F _].
Qed.

Lemma replaceInvalid_valid (s : jsstring) : Forall valid (Filename.replaceInvalid s).
Proof.
  unfold Filename.replaceInvalid. apply Forall_forall. intros c I.
  apply in_map_iff in I as (a & <- & _).
  unfold valid. destruct (Filename.is_invalid a) eqn:E; [reflexivity|exact E].
Qed.

Lemma collapseBlanks_Forall (P : N -> Prop) (b : bool) (s : jsstring) :
  P 32%N -> Forall P s -> Forall P (Filename.collapseBlanks b s).
Proof.
  intros P32 F. revert b. induction F as [|c s Pc _ IH]; intros b; cbn.
  - constructor.
  - destruct (is_white_space c); [destruct b|]; auto.
Qed.

Lemma collapseBlanks_spaced (b : bool) (s : jsstring) :
  spaced b (Filename.collapseBlanks b s).
Proof.
  revert b. induction s as [|c s IH]; intros b; cbn; trivial.
  destruct (is_white_space c) eqn:B.
  - destruct b; [apply IH|]. cbn. auto.
  - cbn. rewrite B. apply IH.
Qed.

Lemma spaced_weaken (b : bool) (s : jsstring) : spaced b s -> spaced false s.
Proof.
  destruct s as [|c s]; cbn; trivial.
  destruct (is_white_space c); trivial. intros (E & _ & S). auto.
Qed.

Lemma spaced_prefix (b : bool) (t q : jsstring) : spaced b (t ++ q) -> spaced b t.
Proof.
  revert b. induction t as [|c t IH]; intros b; cbn; trivial.
  destruct (is_white_space c).
  - intros (E & A & S). eauto.
  - apply IH.
Qed.

Lemma spaced_suffix (b : bool) (p t : jsstring) :
  spaced b (p ++ t) -> spaced false t.
Proof.
  revert b. induction p as [|c p IH]; intros b; cbn.
  - apply spaced_weaken.
  - destruct (is_white_space c).
    + intros (_ & _ & S). eapply IH, S.
    + apply IH.
Qed.

Lemma trim_firstn_spaced (n : nat) (s : jsstring) :
  spaced false s -> spaced false (trim (firstn n s)).
Proof.
  intros S. rewrite <- (firstn_skipn n s) in S. apply spaced_prefix in S.
  unfold trim.
  destruct (trimStart_split (firstn n s)) as (ws & E).
  destruct (trimEnd_split (trimStart (firstn n s))) as (ws' & E').
  rewrite E in S. apply spaced_suffix in S.
  rewrite E' in S. now apply spaced_prefix in S.
Qed.

Lemma or_default_cases (x fallback : jsstring) :
  (x <> [] /\ JsString.or_default x fallback = x) \/
  (x = [] /\ JsString.or_default x fallback = fallback).
Proof. destruct x; [right|left]; split; trivial; discriminate. Qed.

End SanitizeFacts.

Import SanitizeFacts.

Lemma firstn_Forall (P : N -> Prop) (n : nat) (s : jsstring) :
  Forall P s -> Forall P (firstn n s).
Proof.
  intros F. rewrite <- (firstn_skipn n s) in F. now apply Forall_app in F.
Qed.

Lemma cleaned_name_bounds (x fallback : jsstring) (P : jsstring -> Prop) :
  P x -> P fallback -> P (JsString.or_default x fallback).
Proof. intros Px Pf. destruct (or_default_cases x fallback) as [[_ ->]|[_ ->]]; trivial. Qed.

(** C9, as the code has it.  For every input, [sanitizeFilename] returns a
    non-empty string of at most 80 code units, with none of the invalid
    characters and no blank at either end.  In the direct-link service it is
    the input with the invalid characters replaced by underscores, cut to 80
    code units and trimmed, or [video] when that is empty.  The ytdl service
    collapses, after the replacement and before the cut, every run of blanks
    into one space, so that its result has no two adjacent blanks, and falls
    back on [youtube-video]. *)
Theorem sanitized_filename (s : jsstring) :
  (Direct.sanitizeFilename s <> [] /\
   (List.length (Direct.sanitizeFilename s) <= 80)%nat /\
   Forall valid (Direct.sanitizeFilename s) /\
   trimmed (Direct.sanitizeFilename s) /\
   Direct.sanitizeFilename s = cleaned_in_three_steps (js "video") s) /\
  (Ytdl.sanitizeFilename s <> [] /\
   (List.length (Ytdl.sanitizeFilename s) <= 80)%nat /\
   Forall valid (Ytdl.sanitizeFilename s) /\
   trimmed (Ytdl.sanitizeFilename s) /\
   spaced false (Ytdl.sanitizeFilename s) /\
   Ytdl.sanitizeFilename s
   = JsString.or_default
       (JsString.trim
          (firstn 80 (Filename.collapseBlanks false (Filename.replaceInvalid s))))
       (js "youtube-video")).
Proof.
  split.
  - unfold Direct.sanitizeFilename, JsString.substring0.
    set (x := JsString.trim (firstn 80 (Filename.replaceInvalid s))).
    repeat split.
    + destruct (or_default_cases x (js "video")) as [[NE ->]|[_ ->]];
        [exact NE|discriminate].
    + apply cleaned_name_bounds with (P := fun r => (List.length r <= 80)%nat).
      * subst x. etransitivity; [apply trim_length|]. apply firstn_le_length.
      * cbn. lia.
    + apply cleaned_name_bounds with (P := Forall valid).
      * apply trim_Forall, firstn_Forall, replaceInvalid_valid.
      * repeat constructor.
    + apply cleaned_name_bounds with (P := fun r => JsString.trimStart r = r).
      * apply trim_trimmed.
      * reflexivity.
    + apply cleaned_name_bounds with (P := fun r => JsString.trimEnd r = r).
      * apply trim_trimmed.
      * reflexivity.
  - unfold Ytdl.sanitizeFilename, JsString.substring0.
    set (x := JsString.trim
                (firstn 80 (Filename.collapseBlanks false (Filename.replaceInvalid s)))).
    repeat split.
    + destruct (or_default_cases x (js "youtube-video")) as [[NE ->]|[_ ->]];
        [exact NE|discriminate].
    + apply cleaned_name_bounds with (P := fun r => (List.length r <= 80)%nat).
      * subst x. etransitivity; [apply trim_length|]. apply firstn_le_length.
      * cbn. lia.
    + apply cleaned_name_bounds with (P := Forall valid).
      * apply trim_Forall, firstn_Forall, collapseBlanks_Forall;
          [reflexivity|apply replaceInvalid_valid].
      * repeat constructor.
    + apply cleaned_name_bounds with (P := fun r => JsString.trimStart r = r).
      * apply trim_trimmed.
      * reflexivity.
    + apply cleaned_name_bounds with (P := fun r => JsString.trimEnd r = r).
      * apply trim_trimmed.
      * reflexivity.
    + apply cleaned_name_bounds with (P := spaced false).
      * apply trim_firstn_spaced, collapseBlanks_spaced.
      * cbn. tauto.
Qed.

(** C9 fails as stated on the ytdl service: replacing, cutting and trimming
    leaves the two blanks of [a  b] in place, the service returns [a b]. *)
Lemma ytdl_sanitize_collapses_blanks :
  Ytdl.sanitizeFilename (js "a  b") = js "a b" /\
  (forall fallback, cleaned_in_three_steps fallback (js "a  b") = js "a  b") /\
  js "a b" <> js "a  b".
Proof. repeat split. discriminate. Qed.

(* ------------------------------------------------------------------ *)
(** ** The examples of the specification, run on both services *)

Example quality_720p_selects_720 :
  Ytdl.selectBestFormat [mp4_1080p; mp4_720p] video (Some (js "720p"))
  = Some mp4_720p /\
  Direct.selectBestFormat lowercase_already
    [mp4_1080p; mp4_720p] video (Some (js "720p"))
  = Some mp4_720p.
Proof. split; reflexivity. Qed.

Example no_quality_selects_1080 :
  Ytdl.selectBestFormat [mp4_1080p; mp4_720p] video None = Some mp4_1080p /\
  Direct.selectBestFormat lowercase_already [mp4_1080p; mp4_720p] video None
  = Some mp4_1080p.
Proof. split; reflexivity. Qed.

Example no_video_formats_no_match :
  Ytdl.selectBestFormat [audio_m4a; audio_webm] video None = None /\
  Direct.selectBestFormat lowercase_already [audio_m4a; audio_webm] video None
  = None.
Proof. split; reflexivity. Qed.

Example audio_container_differs :
  Ytdl.selectBestFormat [audio_webm] audio None = None /\
  Direct.selectBestFormat lowercase_already [audio_webm] audio None
  = Some audio_webm.
Proof. split; reflexivity. Qed.

Example parseInt_reads :
  ParseInt.parseInt (js "1080") = Fin 1080 /\
  ParseInt.parseInt (js " 720p60") = Fin 720 /\
  ParseInt.parseInt (js "0x1f") = Fin 31 /\
  ParseInt.parseInt (js "-5") = Fin (-5) /\
  ParseInt.parseInt (js "abc") = NaN /\
  ParseInt.parseInt (js "9007199254740993") = Fin 9007199254740992.
Proof. repeat split; vm_compute; reflexivity. Qed.

(* ------------------------------------------------------------------ *)
(** ** [extractVideoId], [isYoutubeUrl] and the third-party link *)

Module UrlFacts.
Import JsString VideoUrl TextProps.

Lemma startsWith_app (p s : jsstring) : startsWith p (p ++ s) = true.
Proof. induction p as [|c p IH]; cbn; trivial. now rewrite N.eqb_refl. Qed.

Lemma startsWith_split (p s : jsstring) :
  startsWith p s = true -> s = p ++ skipn (List.length p) s.
Proof.
  revert s. induction p as [|c p IH]; intros [|x s]; cbn; try easy.
  intros H. apply andb_true_iff in H as [E H]. apply N.eqb_eq in E.
  subst x. f_equal. now apply IH.
Qed.

Lemma skipn_exact {A} (p s : list A) : skipn (List.length p) (p ++ s) = s.
Proof. induction p; cbn; trivial. Qed.

Lemma includes_at (a p b : jsstring) : includes (a ++ p ++ b) p = true.
Proof.
  induction a as [|c a IH]; cbn [app].
  - destruct (p ++ b) eqn:E; cbn.
    + destruct p; [reflexivity|discriminate].
    + rewrite <- E, startsWith_app. reflexivity.
  - cbn. rewrite IH. apply orb_true_r.
Qed.

Lemma idRun_spec (s : jsstring) :
  Forall (fun c => in_id c = true) (idRun s) /\
  exists rest, s = idRun s ++ rest /\ stops rest.
Proof.
  induction s as [|c s (F & rest & E & St)]; cbn.
  - split; [constructor|]. now exists [].
  - destruct (in_id c) eqn:I.
    + split; [now constructor|]. exists rest. cbn. split; [now f_equal|exact St].
    + split; [constructor|]. exists (c :: s). now split.
Qed.

Lemma idRun_exact (id rest : jsstring) :
  Forall (fun c => in_id c = true) id -> stops rest -> idRun (id ++ rest) = id.
Proof.
  intros F St. induction F as [|c id I _ IH]; cbn.
  - destruct rest as [|c r]; cbn in *; trivial. now rewrite St.
  - rewrite I. now f_equal.
Qed.

Lemma tryMarker_some (m s id : jsstring) :
  tryMarker m s = Some id ->
  id <> [] /\ Forall (fun c => in_id c = true) id /\
  exists rest, s = m ++ id ++ rest /\ stops rest.
Proof.
  unfold tryMarker. destruct (startsWith m s) eqn:P; [|discriminate].
  apply startsWith_split in P.
  destruct (idRun_spec (skipn (List.length m) s)) as (F & rest & E & St).
  destruct (idRun (skipn (List.length m) s)) as [|c r] eqn:R; [discriminate|].
  intros [= <-]. split; [discriminate|]. split; [exact F|].
  exists rest. split; [|exact St]. now rewrite <- E.
Qed.

Lemma tryMarker_exact (m id rest : jsstring) :
  id <> [] -> Forall (fun c => in_id c = true) id -> stops rest ->
  tryMarker m (m ++ id ++ rest) = Some id.
Proof.
  intros NE F St. unfold tryMarker.
  rewrite startsWith_app, skipn_exact, idRun_exact by assumption.
  destruct id; [congruence|reflexivity].
Qed.

Lemma firstAlternative_some (ms : list jsstring) (s id : jsstring) :
  firstAlternative ms s = Some id ->
  exists m, In m ms /\ tryMarker m s = Some id.
Proof.
  induction ms as [|m ms IH]; cbn; [discriminate|].
  destruct (tryMarker m s) as [id'|] eqn:T.
  - intros [= <-]. exists m. auto.
  - intros H. destruct (IH H) as (m' & I & T'). exists m'. auto.
Qed.

Lemma firstAlternative_finds (ms : list jsstring) (m s id : jsstring) :
  In m ms -> tryMarker m s = Some id ->
  exists id', firstAlternative ms s = Some id'.
Proof.
  induction ms as [|m0 ms IH]; cbn; [easy|].
  intros [->|I] T.
  - rewrite T. eauto.
  - destruct (tryMarker m0 s); eauto.
Qed.

Lemma matchFrom_some (s id : jsstring) :
  matchFrom s = Some id ->
  exists before s', s = before ++ s' /\ firstAlternative markers s' = Some id.
Proof.
  induction s as [|c s IH].
  - cbn. discriminate.
  - cbn [matchFrom].
    destruct (firstAlternative markers (c :: s)) as [id'|] eqn:A.
    + intros [= <-]. now exists [], (c :: s).
    + intros H. destruct (IH H) as (before & s' & -> & A').
      now exists (c :: before), s'.
Qed.

Lemma matchFrom_unfold (s : jsstring) :
  matchFrom s =
  match firstAlternative markers s with
  | Some id => Some id
  | None => match s with [] => None | _ :: r => matchFrom r end
  end.
Proof. destruct s; reflexivity. Qed.

Lemma matchFrom_finds (before s : jsstring) (id : jsstring) :
  firstAlternative markers s = Some id ->
  exists id', matchFrom (before ++ s) = Some id'.
Proof.
  intros A. induction before as [|c before IH]; cbn [app].
  - rewrite matchFrom_unfold, A. eauto.
  - rewrite matchFrom_unfold.
    destruct (firstAlternative markers (c :: before ++ s)); eauto.
Qed.

(** No alternative starts at a code unit other than the letter y. *)
Lemma firstAlternative_needs_y (c : N) (s : jsstring) :
  c <> 121%N -> firstAlternative markers (c :: s) = None.
Proof.
  intros NY. unfold markers, firstAlternative, tryMarker.
  assert (E : (121 =? c)%N = false) by (apply N.eqb_neq; congruence).
  cbn -[N.eqb]. now rewrite E.
Qed.

Lemma matchFrom_skips (before s : jsstring) :
  Forall (fun c => c <> 121%N) before -> matchFrom (before ++ s) = matchFrom s.
Proof.
  induction 1 as [|c before NY _ IH]; cbn [app]; trivial.
  rewrite matchFrom_unfold, firstAlternative_needs_y by exact NY. exact IH.
Qed.

(** At a marker, the alternatives before it in the list do not match. *)
Lemma firstAlternative_exact (m id rest : jsstring) :
  In m markers ->
  id <> [] -> Forall (fun c => in_id c = true) id -> stops rest ->
  firstAlternative markers (m ++ id ++ rest) = Some id.
Proof.
  intros I NE F St. pose proof (@tryMarker_exact m id rest NE F St) as T.
  unfold markers in *. cbn [firstAlternative].
  destruct I as [<-|[<-|[<-|[]]]].
  - now rewrite T.
  - replace (tryMarker (js "youtube.com/watch?v=") (js "youtu.be/" ++ id ++ rest))
      with (@None jsstring) by reflexivity.
    now rewrite T.
  - replace (tryMarker (js "youtube.com/watch?v=")
               (js "youtube.com/embed/" ++ id ++ rest))
      with (@None jsstring) by reflexivity.
    replace (tryMarker (js "youtu.be/") (js "youtube.com/embed/" ++ id ++ rest))
      with (@None jsstring) by reflexivity.
    now rewrite T.
Qed.

(** Every marker begins with one of the two texts [isYoutubeUrl] looks
    for. *)
Lemma marker_host (m : jsstring) :
  In m markers ->
  exists host tail,
    m = host ++ tail /\ (host = js "youtube.com" \/ host = js "youtu.be").
Proof.
  unfold markers. intros [<-|[<-|[<-|[]]]].
  - exists (js "youtube.com"), (js "/watch?v="). auto.
  - exists (js "youtu.be"), (js "/"). auto.
  - exists (js "youtube.com"), (js "/embed/"). auto.
Qed.

End UrlFacts.

(* ------------------------------------------------------------------ *)
(** ** More on trimming *)

Module TrimFacts.
Import JsString SanitizeFacts.

Lemma trimStart_before_solid (a : jsstring) (c : N) (b : jsstring) :
  is_white_space c = false -> trimStart (a ++ c :: b) = trimStart a ++ c :: b.
Proof.
  intros B. induction a as [|x a IH]; cbn.
  - now rewrite B.
  - destruct (is_white_space x); trivial.
Qed.

Lemma trimStart_snoc_blank (s : jsstring) (c : N) :
  is_white_space c = true ->
  trimStart (s ++ [c]) =
  match trimStart s with [] => [] | t => t ++ [c] end.
Proof.
  intros B. induction s as [|x s IH]; cbn.
  - now rewrite B.
  - destruct (is_white_space x); trivial.
Qed.

Lemma trimEnd_after_solid (a : jsstring) (c : N) (b : jsstring) :
  is_white_space c = false -> trimEnd (a ++ c :: b) = a ++ c :: trimEnd b.
Proof.
  intros B. unfold trimEnd.
  replace (rev (a ++ c :: b)) with (rev b ++ c :: rev a)
    by (rewrite rev_app_distr; cbn [rev]; now rewrite <- app_assoc).
  rewrite trimStart_before_solid by exact B.
  rewrite rev_app_distr. cbn [rev]. rewrite rev_involutive.
  now rewrite <- app_assoc.
Qed.

(** [trimEnd], one code unit at a time. *)
Lemma trimEnd_cons (c : N) (s : jsstring) :
  trimEnd (c :: s) =
  match trimEnd s with
  | [] => if is_white_space c then [] else [c]
  | t => c :: t
  end.
Proof.
  unfold trimEnd. cbn [rev]. destruct (is_white_space c) eqn:B.
  - rewrite trimStart_snoc_blank by exact B.
    destruct (trimStart (rev s)) as [|x t]; trivial.
    rewrite rev_app_distr. cbn [rev app].
    destruct (rev t ++ [x]) eqn:E; trivial.
    now destruct (rev t).
  - rewrite trimStart_snoc by exact B.
    rewrite rev_app_distr. cbn [rev app].
    now destruct (rev (trimStart (rev s))).
Qed.

Lemma trimEnd_nil : trimEnd [] = [].
Proof. reflexivity. Qed.

(** The two ends are trimmed independently. *)
Lemma trim_commutes (s : jsstring) : trimStart (trimEnd s) = trimEnd (trimStart s).
Proof.
  induction s as [|c s IH]; trivial.
  cbn [trimStart]. rewrite trimEnd_cons.
  destruct (is_white_space c) eqn:B.
  - rewrite <- IH. destruct (trimEnd s) as [|x t]; trivial.
    cbn [trimStart]. now rewrite B.
  - rewrite trimEnd_cons. rewrite B.
    destruct (trimEnd s) as [|x t]; cbn [trimStart]; now rewrite B.
Qed.

Lemma trimEnd_idem (s : jsstring) : trimEnd (trimEnd s) = trimEnd s.
Proof. unfold trimEnd. now rewrite rev_involutive, trimStart_idem. Qed.

Lemma trim_trimStart (s : jsstring) : trim (trimStart s) = trim s.
Proof. unfold trim. now rewrite trimStart_idem. Qed.

Lemma trim_trimEnd (s : jsstring) : trim (trimEnd s) = trim s.
Proof. unfold trim. now rewrite trim_commutes, trimEnd_idem. Qed.

Lemma trim_idem (s : jsstring) : trim (trim s) = trim s.
Proof. unfold trim at 2. now rewrite trim_trimEnd, trim_trimStart. Qed.

Lemma trimEnd_snoc_blank (s : jsstring) (c : N) :
  is_white_space c = true -> trimEnd (s ++ [c]) = trimEnd s.
Proof.
  intros B. unfold trimEnd. rewrite rev_app_distr. cbn. now rewrite B.
Qed.

Lemma trim_snoc_blank (s : jsstring) (c : N) :
  is_white_space c = true -> trim (s ++ [c]) = trim s.
Proof.
  intros B. unfold trim.
  now rewrite <- !trim_commutes, trimEnd_snoc_blank by exact B.
Qed.

Lemma trimStart_incl (s : jsstring) (c : N) : In c (trimStart s) -> In c s.
Proof.
  destruct (trimStart_split s) as (ws & E). intros I.
  rewrite E. apply in_or_app. now right.
Qed.

Lemma trimEnd_incl (s : jsstring) (c : N) : In c (trimEnd s) -> In c s.
Proof.
  destruct (trimEnd_split s) as (ws & E). intros I.
  rewrite E. apply in_or_app. now left.
Qed.

Lemma trim_incl (s : jsstring) (c : N) : In c (trim s) -> In c s.
Proof. intros I. now apply trimStart_incl, trimEnd_incl. Qed.

End TrimFacts.

(* ------------------------------------------------------------------ *)
(** ** The environment file *)

Module EnvFacts.
Import JsString EnvFile TextProps Props SanitizeFacts TrimFacts.

(** Induction that follows [splitLines]: one or two code units at a time. *)
Lemma two_step_ind (P : jsstring -> Prop) :
  P [] -> (forall c, P [c]) ->
  (forall c c' r, P r -> P (c' :: r) -> P (c :: c' :: r)) ->
  forall s, P s.
Proof.
  intros H0 H1 H2 s.
  assert (A : P s /\ forall c, P (c :: s)).
  { induction s as [|x s [IH IH']]; [now split|].
    split; [apply IH'|]. intros c. apply H2; auto. }
  apply A.
Qed.

Lemma splitLines_two (c c' : N) (r : jsstring) :
  splitLines (c :: c' :: r) =
  if (c =? 10)%N then [] :: splitLines (c' :: r)
  else if ((c =? 13) && (c' =? 10))%N then [] :: splitLines r
       else push c (splitLines (c' :: r)).
Proof. reflexivity. Qed.

Lemma push_Forall (P : jsstring -> Prop) (c : N) (lines : list jsstring) :
  (forall l, P l -> P (c :: l)) -> P [c] ->
  Forall P lines -> Forall P (push c lines).
Proof.
  intros Hc H1 F. destruct F; cbn; constructor; auto.
Qed.

Lemma splitLines_no_lf (raw : jsstring) :
  Forall (without 10) (splitLines raw).
Proof.
  induction raw as [|c|c c' r IH IH'] using two_step_ind.
  - repeat constructor. intros [].
  - cbn. destruct (N.eqb_spec c 10).
    + repeat constructor; intros [].
    + repeat constructor. intros [E|[]]. congruence.
  - rewrite splitLines_two. destruct (N.eqb_spec c 10); [constructor; [intros []|exact IH']|].
    destruct ((c =? 13) && (c' =? 10))%N; [constructor; [intros []|exact IH]|].
    apply push_Forall; trivial.
    + intros l W [E|I]; [congruence|now apply W].
    + intros [E|[]]. congruence.
Qed.

Lemma splitLines_single (line : jsstring) :
  without 10 line -> splitLines line = [line].
Proof.
  induction line as [|c|c c' r IH IH'] using two_step_ind; intros W; trivial.
  - cbn. destruct (N.eqb_spec c 10); trivial. subst. destruct W. now left.
  - rewrite splitLines_two.
    destruct (N.eqb_spec c 10) as [->|_]; [destruct W; now left|].
    destruct (N.eqb_spec c' 10) as [->|_]; [destruct W; right; now left|].
    rewrite andb_false_r. rewrite IH'; trivial.
    intros I. apply W. now right.
Qed.

Lemma splitLines_last (raw line : jsstring) :
  without 10 line ->
  exists l0 L, splitLines (raw ++ 10%N :: line) = l0 :: L ++ [line].
Proof.
  intros W. induction raw as [|c|c c' r IH IH'] using two_step_ind.
  - exists [], []. cbn. now rewrite splitLines_single.
  - cbn [app splitLines]. rewrite N.eqb_refl.
    destruct (N.eqb_spec c 10).
    + exists [], [[]]. cbn. now rewrite splitLines_single.
    + rewrite splitLines_single by exact W.
      destruct (c =? 13)%N; cbn; [now exists [], []|now exists [c], []].
  - cbn [app]. rewrite splitLines_two.
    destruct IH as (l0 & L & E), IH' as (l0' & L' & E'). cbn [app] in E'.
    destruct (c =? 10)%N; [rewrite E'; now exists [], (l0' :: L')|].
    destruct ((c =? 13) && (c' =? 10))%N; [rewrite E; now exists [], (l0 :: L)|].
    rewrite E'. cbn. now exists (c :: l0'), L'.
Qed.

Lemma crlf_no_lf_first (r : jsstring) :
  match crlf r with c :: _ => c <> 10%N | [] => True end.
Proof.
  destruct r as [|x r]; cbn; trivial.
  destruct (N.eqb_spec x 10); cbn; congruence.
Qed.

Lemma push_same_but_cr (c : N) (ls' ls : list jsstring) :
  Forall2 same_but_cr ls' ls -> Forall2 same_but_cr (push c ls') (push c ls).
Proof.
  intros F. destruct F as [|l' l t' t R F]; cbn.
  - repeat constructor.
  - constructor; trivial. destruct R as [->| ->]; [now left|now right].
Qed.

Lemma same_but_cr_refl (ls : list jsstring) : Forall2 same_but_cr ls ls.
Proof. induction ls; constructor; trivial. now left. Qed.

Lemma splitLines_crlf (raw : jsstring) :
  Forall2 same_but_cr (splitLines (crlf raw)) (splitLines raw).
Proof.
  induction raw as [|c|c c' r IH IH'] using two_step_ind.
  - apply same_but_cr_refl.
  - cbn. destruct (N.eqb_spec c 10) as [->|NE]; cbn.
    + apply same_but_cr_refl.
    + rewrite (proj2 (N.eqb_neq c 10) NE). apply same_but_cr_refl.
  - change (crlf (c :: c' :: r))
      with ((if (c =? 10)%N then [13%N; 10%N] else [c]) ++ crlf (c' :: r)).
    destruct (N.eqb_spec c 10) as [->|NE].
    + cbn [app]. rewrite !splitLines_two. cbn [N.eqb Pos.eqb andb].
      constructor; [now left|exact IH'].
    + cbn [app].
      pose proof (crlf_no_lf_first (c' :: r)) as NF.
      assert (S' : splitLines (c :: crlf (c' :: r))
                   = push c (splitLines (crlf (c' :: r)))).
      { destruct (crlf (c' :: r)) as [|x t].
        - cbn. now rewrite (proj2 (N.eqb_neq c 10) NE).
        - rewrite splitLines_two, (proj2 (N.eqb_neq c 10) NE).
          rewrite (proj2 (N.eqb_neq x 10) NF). now rewrite andb_false_r. }
      rewrite S'. rewrite splitLines_two, (proj2 (N.eqb_neq c 10) NE).
      destruct ((c =? 13) && (c' =? 10))%N eqn:CR.
      * apply andb_true_iff in CR as [C C']. apply N.eqb_eq in C, C'. subst.
        change (crlf (10%N :: r)) with (13%N :: 10%N :: crlf r).
        rewrite splitLines_two. cbn [N.eqb Pos.eqb andb push].
        constructor; [now right|exact IH].
      * apply push_same_but_cr, IH'.
Qed.

Lemma indexOf_first (c : N) (a b : jsstring) :
  without c a -> indexOf c (a ++ c :: b) = Some (List.length a).
Proof.
  intros W. induction a as [|x a IH]; cbn.
  - now rewrite N.eqb_refl.
  - destruct (N.eqb_spec x c) as [->|_]; [destruct W; now left|].
    rewrite IH; trivial. intros I. apply W. now right.
Qed.

Lemma indexOf_before (c : N) (s : jsstring) (i : nat) :
  indexOf c s = Some i -> without c (firstn i s).
Proof.
  revert i. induction s as [|x s IH]; intros i; cbn; [discriminate|].
  destruct (N.eqb_spec x c) as [->|NE].
  - intros [= <-]. intros [].
  - destruct (indexOf c s) as [j|]; [|discriminate].
    intros [= <-]. cbn. intros [E|I]; [congruence|]. now apply (IH j).
Qed.

Lemma get_set_same (key value : jsstring) (obj : object) :
  key <> proto -> get key (set key value obj) = Some value.
Proof.
  intros NP. unfold set.
  destruct (eqb key proto) eqn:E; [apply SelectorFacts.eqb_eq in E; congruence|].
  cbn. now rewrite (proj2 (SelectorFacts.eqb_eq key key) eq_refl).
Qed.

Lemma get_in (key value : jsstring) (obj : object) :
  get key obj = Some value -> In (key, value) obj.
Proof.
  induction obj as [|[k v] obj IH]; cbn; [discriminate|].
  destruct (eqb k key) eqn:E.
  - apply SelectorFacts.eqb_eq in E. intros [= <-]. left. now subst.
  - auto.
Qed.

Lemma set_entries (key value : jsstring) (obj : object) (P : jsstring * jsstring -> Prop) :
  (key <> proto -> P (key, value)) -> Forall P obj -> Forall P (set key value obj).
Proof.
  intros Pk F. unfold set. destruct (eqb key proto) eqn:E; trivial.
  constructor.
  - apply Pk. intros ->. now rewrite (proj2 (SelectorFacts.eqb_eq proto proto) eq_refl) in E.
  - apply Forall_forall. intros p I. apply filter_In in I as [I _].
    revert p I. now apply Forall_forall.
Qed.

Lemma firstn_incl {A} (n : nat) (l : list A) (x : A) : In x (firstn n l) -> In x l.
Proof. intros I. rewrite <- (firstn_skipn n l). apply in_or_app. now left. Qed.

Lemma skipn_incl {A} (n : nat) (l : list A) (x : A) : In x (skipn n l) -> In x l.
Proof. intros I. rewrite <- (firstn_skipn n l). apply in_or_app. now right. Qed.

Lemma readLine_entries (result : object) (line : jsstring) :
  without 10 line ->
  Forall (fun p => entry_ok (fst p) (snd p)) result ->
  Forall (fun p => entry_ok (fst p) (snd p)) (readLine result line).
Proof.
  intros W F. unfold readLine.
  destruct (negb (truthy (trim line)) || startsWith (js "#") (trim line)); trivial.
  destruct (indexOf 61 (trim line)) as [idx|] eqn:I; trivial.
  apply set_entries; trivial. intros NP. cbn [fst snd]. unfold entry_ok.
  repeat split; try apply trim_trimmed; trivial.
  - intros H. apply trim_incl in H. revert H. now apply indexOf_before.
  - intros H. apply W. now apply trim_incl, firstn_incl, trim_incl in H.
  - intros H. apply W. now apply trim_incl, skipn_incl, trim_incl in H.
Qed.

Lemma fold_entries (lines : list jsstring) (result : object) :
  Forall (without 10) lines ->
  Forall (fun p => entry_ok (fst p) (snd p)) result ->
  Forall (fun p => entry_ok (fst p) (snd p)) (fold_left readLine lines result).
Proof.
  intros W. revert result. induction W as [|l lines Wl _ IH]; intros result F; cbn.
  - exact F.
  - apply IH. now apply readLine_entries.
Qed.

(** Only the trimmed line counts. *)
Lemma readLine_trim (result : object) (l' l : jsstring) :
  trim l' = trim l -> readLine result l' = readLine result l.
Proof. unfold readLine. now intros ->. Qed.

Lemma fold_same_but_cr (ls' ls : list jsstring) (result : object) :
  Forall2 same_but_cr ls' ls ->
  fold_left readLine ls' result = fold_left readLine ls result.
Proof.
  intros F. revert result. induction F as [|l' l t' t R _ IH]; intros result; cbn.
  - reflexivity.
  - rewrite (@readLine_trim result l' l); [apply IH|].
    destruct R as [->| ->]; trivial. now apply trim_snoc_blank.
Qed.

(** A line [K=V] read on its own. *)
Lemma readLine_assignment (result : object) (K V : jsstring) :
  without 61 K ->
  startsWith (js "#") (trimStart K) = false ->
  readLine result (K ++ 61%N :: V) = set (trim K) (trim V) result.
Proof.
  intros W NC. unfold readLine.
  assert (T : trim (K ++ 61%N :: V) = trimStart K ++ 61%N :: trimEnd V).
  { unfold trim. rewrite trimStart_before_solid by reflexivity.
    now rewrite trimEnd_after_solid by reflexivity. }
  rewrite T.
  assert (NE : truthy (trimStart K ++ 61%N :: trimEnd V) = true)
    by now destruct (trimStart K).
  assert (NH : startsWith (js "#") (trimStart K ++ 61%N :: trimEnd V) = false)
    by (destruct (trimStart K); [reflexivity|exact NC]).
  rewrite NE, NH. cbn [negb orb].
  rewrite indexOf_first by (intros I; now apply W, trimStart_incl).
  rewrite firstn_app, Nat.sub_diag, firstn_all. cbn [firstn]. rewrite app_nil_r.
  replace (List.length (trimStart K) + 1)%nat with (S (List.length (trimStart K)))
    by lia.
  change (trimStart K ++ 61%N :: trimEnd V)
    with (trimStart K ++ [61%N] ++ trimEnd V).
  rewrite app_assoc.
  replace (S (List.length (trimStart K)))
    with (List.length (trimStart K ++ [61%N]))
    by (rewrite length_app; cbn; lia).
  rewrite UrlFacts.skipn_exact.
  now rewrite trim_trimStart, trim_trimEnd.
Qed.

(** The assignment on the last line is the one that is read back. *)
Lemma last_assignment_read (raw K V : jsstring) :
  without 61 K -> without 10 K -> without 10 V ->
  startsWith (js "#") (trimStart K) = false ->
  trim K <> proto ->
  get (trim K) (parseEnv (raw ++ 10%N :: K ++ 61%N :: V)) = Some (trim V) /\
  get (trim K) (parseEnv (K ++ 61%N :: V)) = Some (trim V).
Proof.
  intros WE WK WV NC NP.
  assert (W : without 10 (K ++ 61%N :: V)).
  { intros I. apply in_app_or in I as [I|[E|I]];
      [now apply WK|discriminate|now apply WV]. }
  split.
  - destruct (splitLines_last raw W) as (l0 & L & E).
    unfold parseEnv. rewrite E.
    change (l0 :: L ++ [K ++ 61%N :: V]) with ((l0 :: L) ++ [K ++ 61%N :: V]).
    rewrite fold_left_app. cbn [fold_left].
    rewrite readLine_assignment by assumption.
    now apply get_set_same.
  - unfold parseEnv. rewrite splitLines_single by exact W. cbn [fold_left].
    rewrite readLine_assignment by assumption.
    now apply get_set_same.
Qed.

End EnvFacts.

(* ------------------------------------------------------------------ *)
(** ** Properties of the video links *)

Import JsString VideoUrl TextProps UrlFacts.

(** X1.  An identifier that [extractVideoId] returns is not empty, holds
    no ampersand, line feed, question mark or hash, and stands in the url
    right after one of the three markers, up to the end of the url or to
    the first of those four characters. *)
Theorem extracted_id_shape (url id : jsstring) :
  extractVideoId url = Some id ->
  id <> [] /\
  Forall (fun c => in_id c = true) id /\
  exists before m rest,
    In m markers /\ url = before ++ m ++ id ++ rest /\ stops rest.
Proof.
  intros H. apply matchFrom_some in H as (before & s' & -> & A).
  apply firstAlternative_some in A as (m & I & T).
  apply tryMarker_some in T as (NE & F & rest & -> & St).
  split; [exact NE|]. split; [exact F|]. now exists before, m, rest.
Qed.

Lemma extracted_id_shape_witness :
  js "abc" <> [] /\
  Forall (fun c => in_id c = true) (js "abc") /\
  exists before m rest,
    In m markers /\
    js "https://youtu.be/abc?t=1" = before ++ m ++ js "abc" ++ rest /\
    stops rest.
Proof.
  apply (@extracted_id_shape (js "https://youtu.be/abc?t=1") (js "abc")).
  reflexivity.
Defined.

(** X2.  [extractVideoId] finds an identifier exactly when the url holds,
    somewhere, one of the three markers followed by a character other than
    ampersand, line feed, question mark and hash; in every other case it
    returns [null]. *)
Theorem extracts_iff_marker (url : jsstring) :
  (exists id, extractVideoId url = Some id) <->
  (exists before m c rest,
      In m markers /\ in_id c = true /\ url = before ++ m ++ c :: rest).
Proof.
  split.
  - intros (id & H).
    apply matchFrom_some in H as (before & s' & -> & A).
    apply firstAlternative_some in A as (m & I & T).
    apply tryMarker_some in T as (NE & F & rest & -> & St).
    destruct id as [|c id]; [congruence|].
    exists before, m, c, (id ++ rest). repeat split; trivial.
    now inversion F.
  - intros (before & m & c & rest & I & C & ->).
    assert (T : tryMarker m (m ++ c :: rest) = Some (c :: idRun rest)).
    { unfold tryMarker. rewrite startsWith_app, skipn_exact. cbn.
      now rewrite C. }
    destruct (@firstAlternative_finds markers m _ _ I T) as (id' & A).
    exact (@matchFrom_finds before _ _ A).
Qed.

(** X3.  When the text before the marker holds no letter y, the identifier
    returned is the one that follows the marker: the watch, short and embed
    forms of a link all give back the identifier they were built from. *)
Theorem extracts_id_after_marker (before m id rest : jsstring) :
  Forall (fun c => c <> 121%N) before ->
  In m markers ->
  id <> [] ->
  Forall (fun c => in_id c = true) id ->
  stops rest ->
  extractVideoId (before ++ m ++ id ++ rest) = Some id.
Proof.
  intros NY I NE F St. unfold extractVideoId.
  rewrite matchFrom_skips by exact NY.
  rewrite matchFrom_unfold.
  now rewrite firstAlternative_exact by assumption.
Qed.

Lemma extracts_id_after_marker_witness :
  extractVideoId
    (js "https://www." ++ js "youtube.com/watch?v=" ++ js "dQw4w9WgXcQ"
       ++ js "&t=42")
  = Some (js "dQw4w9WgXcQ").
Proof.
  apply extracts_id_after_marker.
  - repeat constructor; discriminate.
  - left. reflexivity.
  - discriminate.
  - repeat constructor.
  - reflexivity.
Defined.

(** X4.  Every url from which [extractVideoId] gets an identifier is one
    that [isYoutubeUrl] accepts. *)
Theorem extracted_url_is_youtube (url id : jsstring) :
  extractVideoId url = Some id -> isYoutubeUrl url = true.
Proof.
  intros H. apply matchFrom_some in H as (before & s' & -> & A).
  apply firstAlternative_some in A as (m & I & T).
  apply tryMarker_some in T as (_ & _ & rest & -> & _).
  destruct (@marker_host _ I) as (host & tail & -> & Hh).
  unfold isYoutubeUrl. apply orb_true_iff.
  rewrite <- !app_assoc.
  destruct Hh as [-> | ->]; [left|right]; apply includes_at.
Qed.

Lemma extracted_url_is_youtube_witness :
  isYoutubeUrl (js "https://www.youtube.com/embed/xyz#top") = true.
Proof.
  apply (@extracted_url_is_youtube
           (js "https://www.youtube.com/embed/xyz#top") (js "xyz")).
  reflexivity.
Defined.



(* ------------------------------------------------------------------ *)
(** ** Properties of the environment file *)

Import EnvFile EnvFacts TrimFacts.

(** X6.  Whatever [parseEnv] stores under a key is trimmed and holds no
    line feed; the key itself is trimmed, holds neither an equals sign nor a
    line feed, and is never [__proto__]. *)
Theorem env_entries_well_formed (raw key value : jsstring) :
  get key (parseEnv raw) = Some value -> entry_ok key value.
Proof.
  intros G. apply get_in in G.
  assert (F : Forall (fun p => entry_ok (fst p) (snd p)) (parseEnv raw)).
  { unfold parseEnv. apply fold_entries; [apply splitLines_no_lf|constructor]. }
  rewrite Forall_forall in F. exact (F _ G).
Qed.

Lemma env_entries_well_formed_witness :
  entry_ok (js "PORT") (js "80 80").
Proof.
  apply (@env_entries_well_formed
           (js "# local" ++ [13%N; 10%N] ++ js "  PORT =  80 80 ")
           (js "PORT") (js "80 80")).
  reflexivity.
Defined.

(** X7.  The last line of the file wins.  When the file ends with a line
    [K=V] (alone, or after a line feed), where [K] holds no equals sign,
    neither holds a line feed, the line is no comment and the trimmed [K] is
    not [__proto__], then [parseEnv] gives the trimmed [V] for the trimmed
    [K], whatever the lines before say. *)
Theorem env_last_assignment_wins (raw K V : jsstring) :
  without 61 K -> without 10 K -> without 10 V ->
  startsWith (js "#") (trimStart K) = false ->
  trim K <> proto ->
  get (trim K) (parseEnv (raw ++ 10%N :: K ++ 61%N :: V)) = Some (trim V) /\
  get (trim K) (parseEnv (K ++ 61%N :: V)) = Some (trim V).
Proof. apply last_assignment_read. Qed.

Lemma env_last_assignment_wins_witness :
  get (js "MODE") (parseEnv (js "MODE=dev" ++ 10%N :: js "MODE " ++ 61%N :: js " prod"))
  = Some (js "prod").
Proof.
  refine (proj1 (@env_last_assignment_wins (js "MODE=dev") (js "MODE ") (js " prod")
                   _ _ _ _ _)).
  - vm_compute. intros I. repeat (destruct I as [I|I]; [discriminate I|]). exact I.
  - vm_compute. intros I. repeat (destruct I as [I|I]; [discriminate I|]). exact I.
  - vm_compute. intros I. repeat (destruct I as [I|I]; [discriminate I|]). exact I.
  - reflexivity.
  - discriminate.
Defined.

(** X8.  A file with carriage return, line feed at the end of its lines is
    read like the same file with line feeds alone. *)
Theorem env_crlf_same (raw : jsstring) :
  parseEnv (crlf raw) = parseEnv raw.
Proof. unfold parseEnv. apply fold_same_but_cr, splitLines_crlf. Qed.

Lemma api_key_trimmed : trim API_BASE_URL = API_BASE_URL.
Proof. reflexivity. Qed.

(** X9.  The address written to the environment file is never empty.  A
    non-empty [API_BASE_URL] of the process is used as it is, whatever the
    [.env] file holds; with none, and no [.env] file or one that does not
    define the key, the default address is used. *)
Theorem api_base_url_precedence (processEnv envFile : option jsstring) :
  apiBaseUrl processEnv envFile <> [] /\
  (forall v, processEnv = Some v -> v <> [] ->
             apiBaseUrl processEnv envFile = v) /\
  (processEnv = None \/ processEnv = Some [] ->
   envFile = None \/
   (exists raw, envFile = Some raw /\ get API_BASE_URL (parseEnv raw) = None) ->
   apiBaseUrl processEnv envFile = defaultBaseUrl).
Proof.
  split; [|split].
  - unfold apiBaseUrl.
    destruct processEnv as [[|c v]|]; destruct envFile as [raw|]; cbn;
      try discriminate;
      destruct (get _ (parseEnv raw)) as [[|x w]|]; cbn; discriminate.
  - intros v -> NE. unfold apiBaseUrl. destruct v; [congruence|reflexivity].
  - intros P F. unfold apiBaseUrl.
    assert (E : match processEnv with Some v => v | None => [] end = [])
      by (destruct P as [->| ->]; reflexivity).
    rewrite E.
    destruct F as [->|(raw & -> & G)]; [reflexivity|]. now rewrite G.
Qed.

Lemma api_base_url_precedence_witness :
  apiBaseUrl (Some (js "http://localhost:3000"))
    (Some (js "API_BASE_URL=https://example.org"))
  = js "http://localhost:3000".
Proof.
  apply (proj1 (proj2 (api_base_url_precedence
                         (Some (js "http://localhost:3000"))
                         (Some (js "API_BASE_URL=https://example.org"))))
           (js "http://localhost:3000") eq_refl).
  discriminate.
Defined.

(** X10.  With no [API_BASE_URL] in the process, a [.env] file whose last
    line is [API_BASE_URL=V], with a [V] that is not blank and holds no line
    feed, sets the address to the trimmed [V]. *)
Theorem api_base_url_from_file (processEnv : option jsstring) (raw V : jsstring) :
  processEnv = None \/ processEnv = Some [] ->
  without 10 V ->
  trim V <> [] ->
  apiBaseUrl processEnv (Some (raw ++ 10%N :: API_BASE_URL ++ 61%N :: V)) = trim V /\
  apiBaseUrl processEnv (Some (API_BASE_URL ++ 61%N :: V)) = trim V.
Proof.
  intros P WV NE.
  assert (G : get (trim API_BASE_URL) (parseEnv (raw ++ 10%N :: API_BASE_URL ++ 61%N :: V))
              = Some (trim V) /\
              get (trim API_BASE_URL) (parseEnv (API_BASE_URL ++ 61%N :: V))
              = Some (trim V)).
  { apply last_assignment_read.
    - vm_compute. intros I.
      repeat (destruct I as [I|I]; [discriminate I|]). exact I.
    - vm_compute. intros I.
      repeat (destruct I as [I|I]; [discriminate I|]). exact I.
    - exact WV.
    - reflexivity.
    - intros H. vm_compute in H. discriminate H. }
  rewrite api_key_trimmed in G. destruct G as [G1 G2].
  assert (E : match processEnv with Some v => v | None => [] end = [])
    by (destruct P as [->| ->]; reflexivity).
  unfold apiBaseUrl. rewrite E, G1, G2.
  destruct (trim V); [congruence|]. now split.
Qed.

Lemma api_base_url_from_file_witness :
  apiBaseUrl None
    (Some (js "# api" ++ 10%N :: API_BASE_URL ++ 61%N :: js " https://example.org "))
  = js "https://example.org".
Proof.
  refine (proj1 (@api_base_url_from_file None (js "# api")
                   (js " https://example.org ") _ _ _)).
  - left. reflexivity.
  - vm_compute. intros I.
    repeat (destruct I as [I|I]; [discriminate I|]). exact I.
  - vm_compute. discriminate.
Defined.

(* ------------------------------------------------------------------ *)
(** ** Properties of [downloadVideo] in the direct-link service *)

Module DownloadFacts.
Import DirectDownload.

Lemma direct_select_none_iff toLowerCase
    (formats : list Format) (mediaType : mediaType) (wanted : option jsstring) :
  Direct.selectBestFormat toLowerCase formats mediaType wanted = None <->
  filter (Direct.keeps mediaType) formats = [].
Proof.
  unfold Direct.selectBestFormat.
  destruct (filter (Direct.keeps mediaType) formats) as [|first rest].
  - tauto.
  - destruct (Direct.qualityStage toLowerCase wanted (first :: rest));
      split; discriminate.
Qed.

Lemma throws_unusable (T : Type) (call : Metadata.settled T) (message : jsstring) :
  Metadata.getVideoMetadata call = Metadata.Throws T message -> unusable call.
Proof.
  unfold Metadata.getVideoMetadata, Metadata.attempt, unusable.
  destruct call as [[[[] [d|]]|]|m]; cbn; auto; discriminate.
Qed.

Lemma returns_usable (T : Type) (call : Metadata.settled T) (d : T) :
  Metadata.getVideoMetadata call = Metadata.Returns d ->
  exists response,
    call = Metadata.Resolved (Some response) /\
    Metadata.success response = true /\ Metadata.data response = Some d.
Proof.
  unfold Metadata.getVideoMetadata, Metadata.attempt.
  destruct call as [[[[] [x|]]|]|m]; cbn; try discriminate.
  intros [= ->]. eexists. repeat split.
Qed.

Lemma direct_sanitize_nonempty (s : jsstring) : Direct.sanitizeFilename s <> [].
Proof.
  unfold Direct.sanitizeFilename.
  destruct (SanitizeFacts.or_default_cases
              (JsString.trim (JsString.substring0 80 (Filename.replaceInvalid s)))
              (js "video")) as [[NE ->]|[_ ->]]; [exact NE|discriminate].
Qed.

End DownloadFacts.

Import DirectDownload DownloadFacts.

(** X11.  In the direct-link service the requested quality never changes
    what [downloadVideo] does: the link and the suggested name, or the
    error, are the same for every quality. *)
Theorem download_ignores_quality toLowerCase
    (url filename : jsstring) (mediaType : mediaType)
    (wanted wanted' : option jsstring)
    (call : Metadata.settled YoutubeMetadata) :
  downloadVideo toLowerCase url filename mediaType wanted call
  = downloadVideo toLowerCase url filename mediaType wanted' call.
Proof.
  unfold downloadVideo.
  destruct (Metadata.getVideoMetadata call) as [metadata|message]; trivial.
  pose proof (direct_select_none_iff toLowerCase (formats metadata) mediaType wanted) as A.
  pose proof (direct_select_none_iff toLowerCase (formats metadata) mediaType wanted') as B.
  destruct (Direct.selectBestFormat toLowerCase (formats metadata) mediaType wanted)
    as [f|];
    destruct (Direct.selectBestFormat toLowerCase (formats metadata) mediaType wanted')
    as [f'|]; trivial.
  - assert (E : @None Format = None) by reflexivity.
    apply B, A in E. discriminate E.
  - assert (E : @None Format = None) by reflexivity.
    apply A, B in E. discriminate E.
Qed.

(** X12.  [downloadVideo] of the direct-link service clicks a link exactly
    when the backend answered with metadata holding at least one format of
    the media type; the link then points to the url it was given and its
    download name is not empty: the file name given, or the cleaned title
    when that is empty.  Otherwise it rejects: the backend gave nothing
    usable, or there is no format of the media type and the error says
    so. *)
Theorem download_outcome toLowerCase
    (url filename : jsstring) (mediaType : mediaType)
    (wanted : option jsstring) (call : Metadata.settled YoutubeMetadata) :
  match downloadVideo toLowerCase url filename mediaType wanted call with
  | Clicked href name =>
      href = url /\ name <> [] /\
      exists response metadata,
        call = Metadata.Resolved (Some response) /\
        Metadata.success response = true /\
        Metadata.data response = Some metadata /\
        filter (Direct.keeps mediaType) (formats metadata) <> [] /\
        name = (if JsString.truthy filename then filename
                else Direct.sanitizeFilename (title metadata))
  | Rejected message =>
      unusable call \/
      exists metadata,
        Metadata.getVideoMetadata call = Metadata.Returns metadata /\
        filter (Direct.keeps mediaType) (formats metadata) = [] /\
        message = noFormatError
  end.
Proof.
  unfold downloadVideo.
  destruct (Metadata.getVideoMetadata call) as [metadata|message] eqn:G.
  - pose proof (direct_select_none_iff toLowerCase (formats metadata) mediaType wanted) as A.
    destruct (Direct.selectBestFormat toLowerCase (formats metadata) mediaType wanted)
      as [f|].
    + split; [reflexivity|]. split.
      * unfold JsString.or_default. destruct filename; [|discriminate].
        apply direct_sanitize_nonempty.
      * apply returns_usable in G as (response & -> & S & D).
        exists response, metadata. repeat split; trivial.
        intros E. apply A in E. discriminate E.
    + right. exists metadata. repeat split. now apply A.
  - left. exact (throws_unusable _ G).
Qed.

(* ------------------------------------------------------------------ *)
(** ** Further properties of the parser, the fetch and the cleaning *)

Module MoreFacts.
Import JsString EnvFile TextProps Props SanitizeFacts TrimFacts EnvFacts.

Lemma splitLines_nonempty (raw : jsstring) : splitLines raw <> [].
Proof.
  induction raw as [|c|c c' r IH IH'] using two_step_ind.
  - discriminate.
  - cbn. destruct (c =? 10)%N; discriminate.
  - rewrite splitLines_two.
    destruct (c =? 10)%N; [discriminate|].
    destruct ((c =? 13) && (c' =? 10))%N; [discriminate|].
    destruct (splitLines (c' :: r)); [congruence|discriminate].
Qed.

Lemma splitLines_lf (s : jsstring) : splitLines (10%N :: s) = [] :: splitLines s.
Proof. destruct s; reflexivity. Qed.

Lemma push_app (c : N) (ls : list jsstring) (l : jsstring) :
  ls <> [] -> push c (ls ++ [l]) = push c ls ++ [l].
Proof. destruct ls; [congruence|reflexivity]. Qed.

(** The lines of a file with one more line: the lines of the file, the last
    of them without the carriage return the new line feed may take with it,
    and the new line. *)
Lemma splitLines_append (raw line : jsstring) :
  without 10 line ->
  exists ls,
    splitLines (raw ++ 10%N :: line) = ls ++ [line] /\
    Forall2 same_but_cr (splitLines raw) ls.
Proof.
  intros W. induction raw as [|c|c c' r IH IH'] using two_step_ind.
  - exists [[]]. cbn. rewrite splitLines_single by exact W.
    split; [reflexivity|]. repeat constructor.
  - cbn [app]. rewrite splitLines_two.
    assert (L : splitLines (10%N :: line) = [[]; line])
      by (rewrite splitLines_lf; now rewrite splitLines_single by exact W).
    rewrite L, splitLines_single by exact W.
    assert (O : splitLines [c] = if (c =? 10)%N then [[]; []] else [[c]])
      by reflexivity.
    rewrite O. destruct (c =? 10)%N.
    + exists [[]; []]. split; [reflexivity|apply same_but_cr_refl].
    + destruct (N.eqb_spec c 13) as [->|NC]; cbn.
      * exists [[]]. split; [reflexivity|].
        constructor; [now right|constructor].
      * exists [[c]]. split; [reflexivity|]. apply same_but_cr_refl.
  - destruct IH as (ls & E & R), IH' as (ls' & E' & R').
    cbn [app] in *. rewrite !splitLines_two.
    destruct (c =? 10)%N.
    + exists ([] :: ls'). rewrite E'. split; [reflexivity|].
      constructor; [now left|exact R'].
    + destruct ((c =? 13) && (c' =? 10))%N.
      * exists ([] :: ls). rewrite E. split; [reflexivity|].
        constructor; [now left|exact R].
      * exists (push c ls'). rewrite E'. split.
        -- apply push_app. intros ->. inversion R' as [H|]; subst.
           now apply (splitLines_nonempty (c' :: r)).
        -- apply push_same_but_cr, R'.
Qed.

Lemma same_but_cr_trim (l' l : jsstring) : same_but_cr l' l -> trim l' = trim l.
Proof. intros [->| ->]; trivial. now apply trim_snoc_blank. Qed.

Lemma fold_trim_equal (ls' ls : list jsstring) (result : object) :
  Forall2 (fun l' l => trim l' = trim l) ls' ls ->
  fold_left readLine ls' result = fold_left readLine ls result.
Proof.
  intros F. revert result. induction F as [|l' l t' t R _ IH]; intros result; cbn.
  - reflexivity.
  - now rewrite (@readLine_trim result l' l), IH.
Qed.

(** Reading a file with one more line is reading the file, then the line. *)
Lemma parseEnv_append (raw line : jsstring) :
  without 10 line ->
  parseEnv (raw ++ 10%N :: line) = readLine (parseEnv raw) line.
Proof.
  intros W. destruct (splitLines_append raw W) as (ls & E & R).
  unfold parseEnv. rewrite E, fold_left_app. cbn [fold_left]. f_equal.
  symmetry. apply fold_trim_equal.
  clear E. induction R as [|l' l t' t Rh _ IH]; constructor; trivial.
  destruct Rh as [->|E]; trivial.
  rewrite E. now apply trim_snoc_blank.
Qed.

Lemma indexOf_none (c : N) (s : jsstring) : without c s -> indexOf c s = None.
Proof.
  induction s as [|x s IH]; intros W; cbn; trivial.
  destruct (N.eqb_spec x c) as [->|_]; [destruct W; now left|].
  rewrite IH; trivial. intros I. apply W. now right.
Qed.

Lemma valid_fixed (s : jsstring) : Forall valid s -> Filename.replaceInvalid s = s.
Proof.
  unfold Filename.replaceInvalid. induction 1 as [|c s V _ IH]; cbn; trivial.
  unfold valid in V. now rewrite V, IH.
Qed.

Lemma spaced_fixed (b : bool) (s : jsstring) :
  spaced b s -> Filename.collapseBlanks b s = s.
Proof.
  revert b. induction s as [|c s IH]; intros b; cbn; trivial.
  destruct (is_white_space c).
  - intros (-> & -> & S). now rewrite IH.
  - intros S. now rewrite IH.
Qed.

Lemma trimmed_fixed (s : jsstring) : trimmed s -> trim s = s.
Proof. intros [A B]. unfold trim. now rewrite A, B. Qed.

(** A name that is clean already goes through the three steps unchanged. *)
Lemma clean_name_fixed (s fallback : jsstring) :
  s <> [] -> (List.length s <= 80)%nat -> Forall valid s -> trimmed s ->
  or_default (trim (substring0 80 (Filename.replaceInvalid s))) fallback = s.
Proof.
  intros NE L V T. rewrite valid_fixed by exact V.
  unfold substring0. rewrite firstn_all2 by exact L.
  rewrite trimmed_fixed by exact T. destruct s; [congruence|reflexivity].
Qed.

(** What the cleaning of the direct-link service returns is clean. *)
Lemma direct_sanitize_clean (s : jsstring) :
  Direct.sanitizeFilename s <> [] /\
  (List.length (Direct.sanitizeFilename s) <= 80)%nat /\
  Forall valid (Direct.sanitizeFilename s) /\
  trimmed (Direct.sanitizeFilename s).
Proof.
  unfold Direct.sanitizeFilename, substring0.
  set (x := trim (firstn 80 (Filename.replaceInvalid s))).
  destruct (or_default_cases x (js "video")) as [[NE ->]|[_ ->]].
  - split; [exact NE|]. split; [|split].
    + subst x. etransitivity; [apply trim_length|]. apply firstn_le_length.
    + subst x. apply trim_Forall.
      pose proof (replaceInvalid_valid s) as V.
      rewrite <- (firstn_skipn 80 (Filename.replaceInvalid s)) in V.
      now apply Forall_app in V.
    + apply trim_trimmed.
  - split; [discriminate|]. split; [cbn; lia|]. split; [repeat constructor|].
    split; reflexivity.
Qed.

(** What the cleaning of the ytdl service returns is clean, with single
    spaces for blanks. *)
Lemma ytdl_sanitize_clean (s : jsstring) :
  Ytdl.sanitizeFilename s <> [] /\
  (List.length (Ytdl.sanitizeFilename s) <= 80)%nat /\
  Forall valid (Ytdl.sanitizeFilename s) /\
  trimmed (Ytdl.sanitizeFilename s) /\
  spaced false (Ytdl.sanitizeFilename s).
Proof.
  unfold Ytdl.sanitizeFilename, substring0.
  set (y := Filename.collapseBlanks false (Filename.replaceInvalid s)).
  set (x := trim (firstn 80 y)).
  destruct (or_default_cases x (js "youtube-video")) as [[NE ->]|[_ ->]].
  - split; [exact NE|]. split; [|split; [|split]].
    + subst x. etransitivity; [apply trim_length|]. apply firstn_le_length.
    + subst x. apply trim_Forall.
      assert (V : Forall valid y)
        by (apply collapseBlanks_Forall; [reflexivity|apply replaceInvalid_valid]).
      rewrite <- (firstn_skipn 80 y) in V. now apply Forall_app in V.
    + apply trim_trimmed.
    + subst x. apply trim_firstn_spaced, collapseBlanks_spaced.
  - split; [discriminate|]. split; [cbn; lia|]. split; [repeat constructor|].
    split; [split; reflexivity|]. cbn. tauto.
Qed.

End MoreFacts.

Import MoreFacts.

(** X13.  A line added at the end of the file that is blank, or a comment,
    or holds no equals sign, changes nothing of what [parseEnv] returns. *)
Theorem env_ignored_lines (raw line : jsstring) :
  without 10 line ->
  trim line = [] \/ startsWith (js "#") (trim line) = true \/ without 61 line ->
  parseEnv (raw ++ 10%N :: line) = parseEnv raw.
Proof.
  intros W C. rewrite parseEnv_append by exact W. unfold readLine.
  destruct C as [E|[E|E]].
  - now rewrite E.
  - rewrite E. now rewrite orb_true_r.
  - destruct (negb (truthy (trim line)) || startsWith (js "#") (trim line));
      trivial.
    rewrite indexOf_none; trivial. intros I. now apply E, trim_incl.
Qed.

Lemma env_ignored_lines_witness :
  parseEnv (js "A=1" ++ 10%N :: js "  # A=2") = parseEnv (js "A=1").
Proof.
  apply env_ignored_lines.
  - vm_compute. intros I.
    repeat (destruct I as [I|I]; [discriminate I|]). exact I.
  - right. left. reflexivity.
Defined.

(** X14.  An error thrown by [getVideoMetadata] always carries a message
    that is not empty; when the call to the backend was rejected with a
    non-empty message, this message is the one passed on. *)
Theorem fetch_error_message (T : Type) (call : Metadata.settled T)
    (message : jsstring) :
  Metadata.getVideoMetadata call = Metadata.Throws T message ->
  message <> [] /\
  (forall m, call = Metadata.Rejected T (Some m) -> m <> [] -> message = m).
Proof.
  unfold Metadata.getVideoMetadata.
  destruct (Metadata.attempt call) as [d|e] eqn:A; [discriminate|].
  intros [= <-]. split.
  - unfold Metadata.rethrow.
    assert (R : @Metadata.retrievalError <> [])
      by (intros H; vm_compute in H; discriminate H).
    destruct e as [[|c m]|]; trivial. discriminate.
  - intros m -> NE. cbn in A. injection A as <-.
    unfold Metadata.rethrow. destruct m; [congruence|reflexivity].
Qed.

Lemma fetch_error_message_witness :
  js "timeout" <> [] /\
  (forall m, Metadata.Rejected nat (Some (js "timeout")) = Metadata.Rejected nat (Some m) ->
             m <> [] -> js "timeout" = m).
Proof.
  apply (@fetch_error_message nat (Metadata.Rejected nat (Some (js "timeout")))
           (js "timeout")).
  reflexivity.
Defined.

(** X15.  In the ytdl service an empty quality, and a quality that is the
    name of a member every object inherits (such as [constructor] or
    [toString]), select what no quality at all selects. *)
Theorem quality_without_effect
    (formats : list Format) (mediaType : mediaType) (wanted : jsstring) :
  wanted = [] \/ Ytdl.inherited wanted = true ->
  Ytdl.selectBestFormat formats mediaType (Some wanted)
  = Ytdl.selectBestFormat formats mediaType None.
Proof.
  intros C. unfold Ytdl.selectBestFormat.
  destruct (filter (Ytdl.keeps mediaType) formats) as [|first rest]; trivial.
  destruct C as [->|I]; trivial.
  destruct (JsString.truthy wanted) eqn:T.
  - now rewrite (inherited_label_finds_nothing wanted (first :: rest) T I).
  - unfold Ytdl.qualityStage. now rewrite T.
Qed.

Lemma quality_without_effect_witness :
  Ytdl.selectBestFormat [mp4_720p; mp4_1080p] video (Some (js "toString"))
  = Ytdl.selectBestFormat [mp4_720p; mp4_1080p] video None.
Proof.
  apply quality_without_effect. right. reflexivity.
Defined.

(** X16.  A name that is clean already (not empty, at most 80 code units,
    none of the invalid characters, no blank at either end and, for the
    ytdl service, single spaces as its only blanks) is returned as it is by
    [sanitizeFilename]; so cleaning a name twice gives what cleaning it
    once gives, in both services. *)
Theorem sanitize_keeps_clean_names (s : jsstring) :
  (s <> [] -> (List.length s <= 80)%nat -> Forall valid s -> trimmed s ->
   Direct.sanitizeFilename s = s /\
   (spaced false s -> Ytdl.sanitizeFilename s = s)) /\
  Direct.sanitizeFilename (Direct.sanitizeFilename s) = Direct.sanitizeFilename s /\
  Ytdl.sanitizeFilename (Ytdl.sanitizeFilename s) = Ytdl.sanitizeFilename s.
Proof.
  assert (Dk : forall x, x <> [] -> (List.length x <= 80)%nat -> Forall valid x ->
                         trimmed x -> Direct.sanitizeFilename x = x)
    by (intros x NE L V T; now apply clean_name_fixed).
  assert (Yk : forall x, x <> [] -> (List.length x <= 80)%nat -> Forall valid x ->
                         trimmed x -> spaced false x -> Ytdl.sanitizeFilename x = x).
  { intros x NE L V T S. unfold Ytdl.sanitizeFilename.
    rewrite (valid_fixed V), (spaced_fixed _ _ S).
    rewrite <- (valid_fixed V) at 1. now apply clean_name_fixed. }
  split; [|split].
  - intros NE L V T. split; [now apply Dk|intros S; now apply Yk].
  - destruct (direct_sanitize_clean s) as (NE & L & V & T). now apply Dk.
  - destruct (ytdl_sanitize_clean s) as (NE & L & V & T & S). now apply Yk.
Qed.

Lemma sanitize_keeps_clean_names_witness :
  Direct.sanitizeFilename (js "My clip - part 1") = js "My clip - part 1" /\
  Ytdl.sanitizeFilename (js "My clip - part 1") = js "My clip - part 1".
Proof.
  assert (K : Direct.sanitizeFilename (js "My clip - part 1")
              = js "My clip - part 1" /\
              (spaced false (js "My clip - part 1") ->
               Ytdl.sanitizeFilename (js "My clip - part 1")
               = js "My clip - part 1")).
  { apply (proj1 (sanitize_keeps_clean_names (js "My clip - part 1"))).
    - discriminate.
    - vm_compute. repeat constructor.
    - repeat constructor.
    - split; reflexivity. }
  split; [exact (proj1 K)|apply (proj2 K)].
  vm_compute. repeat split.
Defined.
